(** * delivery-bot: the manifest parser, the directory, the interview
      conversation and the route builder of [bot.py]

    The development embeds the handlers of [bot.py] as functions over an
    explicit state (the per-user [user_data] dictionary and the
    [employees.json] file), with Python exceptions as a second kind of
    outcome.  The parts of the Python runtime the handlers call
    ([str.strip], [str.split], [int], [re.match], [sorted], [list.pop])
    are modelled in the module [Py]. *)

From Stdlib Require Import ZArith NArith.
From stdpp Require Import base option list sorting gmap strings.

#[local] Open Scope N_scope.

(** ** Python runtime *)

Module Py.

(** A Python [str] is a sequence of Unicode code points. *)
Abbreviation char := N (only parsing).
Abbreviation str := (list N) (only parsing).

(** String literals of this file: the UTF-8 bytes of a Rocq string are
    decoded to code points (sequences of one to four bytes). *)
Fixpoint utf8_decode (bs : list N) : str :=
  match bs with
  | [] => []
  | b0 :: r0 =>
      if b0 <? 0x80 then b0 :: utf8_decode r0
      else match r0 with
      | [] => [b0]
      | b1 :: r1 =>
          if b0 <? 0xE0 then
            ((b0 - 0xC0) * 64 + (b1 - 0x80)) :: utf8_decode r1
          else match r1 with
          | [] => [b0]
          | b2 :: r2 =>
              if b0 <? 0xF0 then
                ((b0 - 0xE0) * 4096 + (b1 - 0x80) * 64 + (b2 - 0x80))
                  :: utf8_decode r2
              else match r2 with
              | [] => [b0]
              | b3 :: r3 =>
                  ((b0 - 0xF0) * 262144 + (b1 - 0x80) * 4096
                   + (b2 - 0x80) * 64 + (b3 - 0x80)) :: utf8_decode r3
              end
          end
      end
  end.

Definition lit (s : String.string) : str :=
  utf8_decode (map Ascii.N_of_ascii (String.list_ascii_of_string s)).
Arguments lit s%_string.

(** The line feed, which a Rocq string literal cannot escape. *)
Definition LF : char := 10.

(** Exceptions the handlers can raise. *)
Inductive exn := KeyError | TypeError | IndexError | ValueError | AttributeError.

Inductive result (A : Type) :=
| Ok (a : A)
| Raise (e : exn).
Arguments Ok {A} a.
Arguments Raise {A} e.

#[export] Instance result_ret : MRet result := λ A a, Ok a.
#[export] Instance result_bind : MBind result := λ A B f r,
  match r with
  | Ok a => f a
  | Raise e => Raise e
  end.

(** *** Character tables *)

Definition in_range (lo hi c : N) : bool := (lo <=? c) && (c <=? hi).

(** [Py_UNICODE_ISSPACE]: the characters [str.strip], [str.split] and the
    regular expression class [\s] treat as whitespace. *)
Definition isspace (c : char) : bool :=
  in_range 0x09 0x0D c || in_range 0x1C 0x1F c || (c =? 0x20)
  || (c =? 0x85) || (c =? 0xA0) || (c =? 0x1680)
  || in_range 0x2000 0x200A c || (c =? 0x2028) || (c =? 0x2029)
  || (c =? 0x202F) || (c =? 0x205F) || (c =? 0x3000).

(** [Py_ISSPACE], the ASCII whitespace the integer parser skips. *)
Definition c_isspace (c : char) : bool :=
  in_range 0x09 0x0D c || (c =? 0x20).

Definition ascii_digit (c : char) : bool := in_range 48 57 c.

(** The digit tables of the interpreter's Unicode database are not part
    of the program; the development is parametric in them.  [decimal] is
    [Py_UNICODE_TODECIMAL] (the value of a character of category Nd, used
    by [int] and by the class [\d]), [isdigit_char] is
    [Py_UNICODE_ISDIGIT] (used by [str.isdigit]).  The laws are what every
    version of the database satisfies on ASCII and on the Cyrillic block. *)
Class Unicode := {
  decimal : char → option Z;
  isdigit_char : char → bool;
  decimal_ascii c :
    c < 128 → decimal c = if ascii_digit c then Some (Z.of_N (c - 48)) else None;
  decimal_digit c v : decimal c = Some v → (0 ≤ v ≤ 9)%Z;
  decimal_cyrillic c : in_range 0x400 0x4FF c = true → decimal c = None;
  isdigit_ascii c : c < 128 → isdigit_char c = ascii_digit c;
}.

(** *** [str] methods *)

Fixpoint lstrip (s : str) : str :=
  match s with
  | c :: s' => if isspace c then lstrip s' else s
  | [] => []
  end.

(** [s.strip()] *)
Definition strip (s : str) : str := reverse (lstrip (reverse (lstrip s))).

(** [s.split(sep)] for a one-character separator: always at least one
    piece. *)
Fixpoint split_on (sep : char) (s : str) : list str :=
  match s with
  | [] => [[]]
  | c :: s' =>
      if c =? sep then [] :: split_on sep s'
      else match split_on sep s' with
           | w :: ws => (c :: w) :: ws
           | [] => [[c]]
           end
  end.

(** [s.split()]: the maximal runs of non-whitespace characters; [cur] is
    the run being read, reversed. *)
Fixpoint split_ws_from (cur : str) (s : str) : list str :=
  match s with
  | [] => match cur with [] => [] | _ => [reverse cur] end
  | c :: s' =>
      if isspace c then
        match cur with
        | [] => split_ws_from [] s'
        | _ => reverse cur :: split_ws_from [] s'
        end
      else split_ws_from (c :: cur) s'
  end.

Definition split_ws (s : str) : list str := split_ws_from [] s.

(** [l[i]] for a non-negative literal index. *)
Definition index {A} (l : list A) (i : nat) : result A :=
  match l !! i with
  | Some x => Ok x
  | None => Raise IndexError
  end.

(** [str.lower] and [str.capitalize] on the alphabet of the manifest
    grammar (Latin and Russian letters, whitespace, hyphen), the only
    strings the program applies them to when it builds data; other
    characters are left as they are. *)
Definition lower_char (c : char) : char :=
  if in_range 65 90 c then c + 32
  else if in_range 0x410 0x42F c then c + 0x20
  else if c =? 0x401 then 0x451
  else c.

Definition upper_char (c : char) : char :=
  if in_range 97 122 c then c - 32
  else if in_range 0x430 0x44F c then c - 0x20
  else if c =? 0x451 then 0x401
  else c.

Definition lower (s : str) : str := map lower_char s.

Definition capitalize (s : str) : str :=
  match s with
  | [] => []
  | c :: s' => upper_char c :: lower s'
  end.

Section WithUnicode.
Context {U : Unicode}.

(** [s.isdigit()] *)
Definition isdigit (s : str) : bool :=
  match s with
  | [] => false
  | _ => forallb isdigit_char s
  end.

(** *** [int(s)]

    CPython first rewrites the string to ASCII
    ([_PyUnicode_TransformDecimalAndSpaceToASCII]): characters below 127
    are kept, other whitespace becomes a space, other decimal digits
    become ASCII digits, anything else makes the conversion fail.  Then
    [PyLong_FromString] reads optional ASCII whitespace, an optional sign,
    digits with single underscores between them, and optional trailing
    whitespace.  (Its limit on the number of digits, 4300 by default, is
    above the 4096 characters of a Telegram message.) *)
Fixpoint to_ascii (s : str) : option str :=
  match s with
  | [] => Some []
  | c :: s' =>
      if c <? 127 then (c ::.) <$> to_ascii s'
      else if isspace c then (0x20 ::.) <$> to_ascii s'
      else match decimal c with
           | Some v => (48 + Z.to_N v ::.) <$> to_ascii s'
           | None => None
           end
  end.

Fixpoint lstrip_c (s : str) : str :=
  match s with
  | c :: s' => if c_isspace c then lstrip_c s' else s
  | [] => []
  end.

(** The digits of the literal: [acc] is the value read so far, [n] the
    number of digits, [us] tells that the previous character was an
    underscore.  Returns the value, the number of digits and what is
    left. *)
Fixpoint scan_digits (acc : Z) (n : nat) (us : bool) (s : str)
  : option (Z * nat * str) :=
  match s with
  | c :: s' =>
      if ascii_digit c then
        scan_digits (10 * acc + Z.of_N (c - 48)) (S n) false s'
      else if c =? 95 then
        if us then None else scan_digits acc n true s'
      else if us then None else Some (acc, n, s)
  | [] => if us then None else Some (acc, n, [])
  end.

Definition parse_long (s : str) : option Z :=
  let s1 := lstrip_c s in
  let '(sign, s2) :=
    match s1 with
    | 43 :: r => (1%Z, r)
    | 45 :: r => ((-1)%Z, r)
    | _ => (1%Z, s1)
    end in
  match s2 with
  | 95 :: _ => None
  | _ =>
      match scan_digits 0 0 false s2 with
      | Some (v, S _, rest) =>
          match lstrip_c rest with
          | [] => Some (sign * v)%Z
          | _ => None
          end
      | _ => None
      end
  end.

Definition int (s : str) : result Z :=
  match to_ascii s ≫= parse_long with
  | Some v => Ok v
  | None => Raise ValueError
  end.

(** [\d] of a [str] pattern: the characters with a decimal value. *)
Definition is_decimal (c : char) : bool := bool_decide (is_Some (decimal c)).

End WithUnicode.

(** *** [re.match]

    The patterns of the program repeat character classes only, so the
    syntax has one repetition node: [Rep cls lo hi lazy] is the class
    [cls] taken between [lo] and [hi] times ([None]: no upper bound),
    greedily unless [lazy].  A class alone is [Rep cls 1 (Some 1) false]. *)
Inductive regex :=
| Bol
| Eol
| Rep (cls : char → bool) (lo : nat) (hi : option nat) (lazy : bool)
| Cat (r1 r2 : regex)
| Group (n : nat) (r : regex).

Definition may_take (hi : option nat) : bool :=
  match hi with Some 0%nat => false | _ => true end.

Definition or_else {A} (x y : option A) : option A :=
  match x with Some _ => x | None => y end.

(** The backtracking matcher, in continuation-passing style: [k] is the
    rest of the pattern, tried at every position the repetition can stop
    at, in the order of the [re] engine (longest first when greedy,
    shortest first when lazy). *)
Fixpoint rep {R} (cls : char → bool) (lazy : bool) (lo : nat)
    (hi : option nat) (pos : nat) (s : str) (k : nat → str → option R)
  : option R :=
  let stop := match lo with O => k pos s | _ => None end in
  match s with
  | c :: s' =>
      if cls c && may_take hi then
        let more := rep cls lazy (pred lo) (pred <$> hi) (S pos) s' k in
        if lazy then or_else stop more else or_else more stop
      else stop
  | [] => stop
  end.

(** [pos] is the number of characters consumed, [s] the rest of the
    subject, [caps] the text of the groups closed so far. *)
Fixpoint run (r : regex) (pos : nat) (s : str) (caps : gmap nat str)
    (k : nat → str → gmap nat str → option (gmap nat str))
  : option (gmap nat str) :=
  match r with
  | Bol => match pos with O => k pos s caps | _ => None end
  | Eol => match s with
           | [] | [10] => k pos s caps
           | _ => None
           end
  | Rep cls lo hi lazy => rep cls lazy lo hi pos s (λ pos' s', k pos' s' caps)
  | Cat r1 r2 => run r1 pos s caps (λ pos' s' caps', run r2 pos' s' caps' k)
  | Group n r =>
      run r pos s caps
        (λ pos' s' caps', k pos' s' (<[n := take (pos' - pos) s]> caps'))
  end.

(** [re.match(r, s)]: the groups of the first match at the start of [s],
    or [None]. *)
Definition re_match (r : regex) (s : str) : option (gmap nat str) :=
  run r 0 s ∅ (λ _ _ caps, Some caps).

(** [m.group(n).strip()]; a group that took no part in the match is the
    object [None], which has no [strip]. *)
Definition group_strip (m : gmap nat str) (n : nat) : result str :=
  match m !! n with
  | Some g => Ok (strip g)
  | None => Raise AttributeError
  end.

(** *** [sorted] and [list.pop]

    [sorted(l, key=key)] compares keys with [<] only and is stable.  It is
    modelled by insertion from the right, an element going in front of the
    first one whose key is not smaller than its own. *)
Section Sorted.
Context {A K : Type} (lt : K → K → bool) (key : A → K).

Fixpoint insert_sorted (x : A) (l : list A) : list A :=
  match l with
  | [] => [x]
  | y :: l' =>
      if lt (key y) (key x) then y :: insert_sorted x l' else x :: l
  end.

Fixpoint sorted (l : list A) : list A :=
  match l with
  | [] => []
  | x :: l' => insert_sorted x (sorted l')
  end.
End Sorted.

(** [<] on pairs of integers: lexicographic. *)
Definition tuple_lt (a b : Z * Z) : bool :=
  (a.1 <? b.1)%Z || ((a.1 =? b.1)%Z && (a.2 <? b.2)%Z).

(** [l.pop(i)]: a negative index counts from the end; an index outside
    [-len(l), len(l)) raises.  Returns the element and the list left. *)
Definition pop {A} (l : list A) (i : Z) : result (A * list A) :=
  let n := Z.of_nat (length l) in
  let j := if (i <? 0)%Z then (i + n)%Z else i in
  if (j <? 0)%Z || (n <=? j)%Z then Raise IndexError
  else match l !! Z.to_nat j with
       | Some x => Ok (x, delete (Z.to_nat j) l)
       | None => Raise IndexError
       end.

(** [str(n)] for a natural number. *)
Definition digit_char (n : nat) : char := 48 + N.of_nat (n mod 10).

Fixpoint str_of_nat_fuel (fuel n : nat) (acc : str) : str :=
  match fuel with
  | O => acc
  | S fuel' =>
      let acc' := digit_char n :: acc in
      match (n / 10)%nat with
      | O => acc'
      | q => str_of_nat_fuel fuel' q acc'
      end
  end.

Definition str_of_nat (n : nat) : str := str_of_nat_fuel (S n) n [].

Module Import notations.
Infix "⋅" := Cat (at level 50, left associativity) : stdpp_scope.
End notations.

End Py.

Import Py Py.notations.

(** ** The manifest parser *)

(** A delivery is a dictionary with the keys [name], [surname] and
    [order], and with [floor] and [room] once it is resolved. *)
Record entry := {
  name : str;
  surname : str;
  order : str;
  floor : option Z;
  room : option str;
}.

Section Bot.
Context {U : Unicode}.

(** [[а-яёА-ЯЁa-zA-Z]] *)
Definition name_start (c : char) : bool :=
  in_range 0x430 0x44F c || (c =? 0x451) || in_range 0x410 0x42F c
  || (c =? 0x401) || in_range 97 122 c || in_range 65 90 c.

(** [[а-яёА-ЯЁa-zA-Z\s\-]] *)
Definition name_char (c : char) : bool :=
  name_start c || isspace c || (c =? 45).

(** [[-–—]] *)
Definition dash (c : char) : bool :=
  (c =? 45) || (c =? 0x2013) || (c =? 0x2014).

Definition spaces : regex := Rep isspace 0 None false.

(** [^([а-яёА-ЯЁa-zA-Z][а-яёА-ЯЁa-zA-Z\s\-]+?)\s*[-–—]?\s*(\d{3,6})\s*$] *)
Definition line_re : regex :=
  Bol
  ⋅ Group 1 (Rep name_start 1 (Some 1%nat) false ⋅ Rep name_char 1 None true)
  ⋅ spaces ⋅ Rep dash 0 (Some 1%nat) false ⋅ spaces
  ⋅ Group 2 (Rep is_decimal 3 (Some 6%nat) false)
  ⋅ spaces ⋅ Eol.

(** The body of the loop of [parse_delivery] on the lines still to read. *)
Fixpoint parse_lines (lines : list str) : result (list entry) :=
  match lines with
  | [] => Ok []
  | line :: rest =>
      let line := strip line in
      match line with
      | [] => parse_lines rest
      | _ =>
          match re_match line_re line with
          | Some m =>
              raw_name ← group_strip m 1;
              order ← group_strip m 2;
              first ← index (split_ws raw_name) 0;
              results ← parse_lines rest;
              Ok ({| name := raw_name; surname := lower first;
                     order := order; floor := None; room := None |}
                  :: results)
          | None => parse_lines rest
          end
      end
  end.

Definition parse_delivery (text : str) : result (list entry) :=
  parse_lines (split_on LF (strip text)).

End Bot.

(** ** The route builder *)

Section Route.
Context {U : Unicode}.

(** [int(room.split(".")[1])] *)
Definition room_segment (room : str) : result Z :=
  index (split_on 46 room) 1 ≫= int.

(** The function [key] of [optimize_route]. *)
Definition room_num (d : entry) : Z :=
  let room := default (lit "99.99") (room d) in
  match room_segment room with
  | Ok n => n
  | Raise _ => 99%Z
  end.

Definition key (d : entry) : Z * Z := (default 99%Z (floor d), room_num d).

Definition optimize_route (deliveries : list entry) : list entry :=
  sorted tuple_lt key deliveries.

(** The text of a route, line by line (the markup is left out). *)
Inductive route_line :=
| line_empty                          (* Список пуст. *)
| line_title                          (* МАРШРУТ *)
| line_blank
| line_floor (floor : option Z)       (* Этаж {floor}, [None] shown as ? *)
| line_item (i : nat) (name room order : str)
| line_total (deliveries floors : nat).

(** The loop of [format_route]: [i] is the position of the first entry
    left, [current_floor] is [None] before the first banner. *)
Fixpoint route_items (i : nat) (current_floor : option (option Z))
    (deliveries : list entry) : result (list route_line) :=
  match deliveries with
  | [] => Ok []
  | d :: rest =>
      let banner :=
        if decide (Some (floor d) = current_floor) then []
        else match current_floor with
             | Some _ => [line_blank; line_floor (floor d)]
             | None => [line_floor (floor d)]
             end in
      match room d with
      | None => Raise KeyError
      | Some r =>
          lines ← route_items (S i) (Some (floor d)) rest;
          Ok (banner ++ line_item i (name d) r (order d) :: lines)
      end
  end.

Definition format_route (deliveries : list entry) : result (list route_line) :=
  match deliveries with
  | [] => Ok [line_empty]
  | _ =>
      lines ← route_items 1 None deliveries;
      let floors_count := length (remove_dups (floor <$> deliveries)) in
      Ok (line_title :: lines ++ [line_total (length deliveries) floors_count])
  end.

(** A button of the inline keyboard: the parts of its label and its
    [callback_data]. *)
Inductive button :=
| mark_button (i : nat) (name room : str) (callback_data : str)
| clear_button (callback_data : str).

Fixpoint route_buttons (i : nat) (deliveries : list entry)
  : result (list button) :=
  match deliveries with
  | [] => Ok [clear_button (lit "done:clear")]
  | d :: rest =>
      match room d with
      | None => Raise KeyError
      | Some r =>
          keyboard ← route_buttons (S i) rest;
          Ok (mark_button (i + 1) (name d) r (lit "done:" ++ str_of_nat i)
              :: keyboard)
      end
  end.

Definition build_route_keyboard (deliveries : list entry)
  : result (list button) :=
  route_buttons 0 deliveries.

End Route.

(** ** State

    A record of [employees.json], as the comment at the head of the
    source gives it: [{"full_name": ..., "floor": 12, "room": "12.43"}].
    The handlers read [full_name] with [.get], so it may be missing. *)
Record employee := {
  full_name : option str;
  emp_floor : Z;
  emp_room : str;
}.

(** [context.user_data["session"]] *)
Record session_t := {
  deliveries : list entry;
  pending : list entry;
  current : option entry;
}.

(** [context.user_data]: a missing key is [None] ([false] for the flag
    [manual_add], which is only ever set to [True]). *)
Record user_data_t := {
  session : option session_t;
  manual_add : bool;
  manual_name : option str;
  manual_floor : option Z;
}.

(** What a handler can read and change: the user's data and the file
    [employees.json] ([None] when it does not exist). *)
Record world := {
  user_data : user_data_t;
  employees_json : option (gmap (list N) employee);
}.

Definition empty_session : session_t :=
  {| deliveries := []; pending := []; current := None |}.

Definition set_deliveries (v : list entry) (s : session_t) : session_t :=
  {| deliveries := v; pending := pending s; current := current s |}.
Definition set_pending (v : list entry) (s : session_t) : session_t :=
  {| deliveries := deliveries s; pending := v; current := current s |}.
Definition set_current (v : option entry) (s : session_t) : session_t :=
  {| deliveries := deliveries s; pending := pending s; current := v |}.

Definition set_floor (v : Z) (d : entry) : entry :=
  {| name := name d; surname := surname d; order := order d;
     floor := Some v; room := room d |}.
Definition set_room (v : str) (d : entry) : entry :=
  {| name := name d; surname := surname d; order := order d;
     floor := floor d; room := Some v |}.

Definition set_user_data (f : user_data_t → user_data_t) (w : world) : world :=
  {| user_data := f (user_data w); employees_json := employees_json w |}.
Definition set_session (v : session_t) (u : user_data_t) : user_data_t :=
  {| session := Some v; manual_add := manual_add u;
     manual_name := manual_name u; manual_floor := manual_floor u |}.
Definition set_manual_add (u : user_data_t) : user_data_t :=
  {| session := session u; manual_add := true;
     manual_name := manual_name u; manual_floor := manual_floor u |}.
Definition set_manual_name (v : str) (u : user_data_t) : user_data_t :=
  {| session := session u; manual_add := manual_add u;
     manual_name := Some v; manual_floor := manual_floor u |}.
Definition set_manual_floor (v : Z) (u : user_data_t) : user_data_t :=
  {| session := session u; manual_add := manual_add u;
     manual_name := manual_name u; manual_floor := Some v |}.

(** The session dictionary of a user, the empty one before
    [get_session] has created it. *)
Definition the_session (w : world) : session_t :=
  default empty_session (session (user_data w)).

(** *** Messages *)

Inductive message :=
| msg_unrecognized                       (* Не понял формат. Пришли отбивку *)
| msg_route (text : list route_line)
| msg_unknown (name : str)               (* Не знаю {name}. На каком этаже *)
| msg_need_number                        (* Введи число, например: 7 *)
| msg_floor_ok (text : str)              (* Этаж {text}. Теперь комната *)
| msg_saved (name : str) (floor : Z) (room : str)
| msg_next (name : str)                  (* Ещё один: {name}. Этаж? *)
| msg_cleared                            (* Маршрут очищен. *)
| msg_cleared_send_new                   (* Маршрут очищен. Пришли новую отбивку. *)
| msg_all_done (name : str)              (* доставлено! Все заказы выполнены! *)
| msg_done (name : str) (text : list route_line)
| msg_add_prompt                         (* Введи фамилию сотрудника *)
| msg_manual_floor (name : str)          (* {name} — этаж? *)
| msg_manual_need_number                 (* Введи число этажа: *)
| msg_manual_floor_ok (text : str).      (* Этаж {text}. Комната? *)

(** The calls a handler makes on the transport. *)
Inductive sent :=
| reply_text (m : message) (reply_markup : option (list button))
| answer
| edit_message_text (m : message) (reply_markup : option (list button)).

(** *** Handlers as state transformers

    A handler runs on a [world] and either returns or raises; in both
    cases it leaves a world and the list of what it sent. *)
Inductive outcome (A : Type) :=
| Done (a : A) (w : world) (out : list sent)
| Raised (e : exn) (w : world) (out : list sent).
Arguments Done {A} a w out.
Arguments Raised {A} e w out.

Definition M (A : Type) : Type := world → outcome A.

#[export] Instance M_ret : MRet M := λ A a w, Done a w [].
#[export] Instance M_bind : MBind M := λ A B f m w,
  match m w with
  | Done a w' out =>
      match f a w' with
      | Done b w'' out' => Done b w'' (out ++ out')
      | Raised e w'' out' => Raised e w'' (out ++ out')
      end
  | Raised e w' out => Raised e w' out
  end.

Definition raise {A} (e : exn) : M A := λ w, Raised e w [].
Definition lift {A} (r : result A) : M A :=
  match r with
  | Ok a => mret a
  | Raise e => raise e
  end.
Definition send (s : sent) : M unit := λ w, Done () w [s].
Definition modify (f : world → world) : M unit := λ w, Done () (f w) [].
Definition gets {A} (f : world → A) : M A := λ w, Done (f w) w [].

(** Reading and assigning a key of the session dictionary that
    [get_session] returned. *)
Definition read {A} (field : session_t → A) : M A :=
  gets (λ w, field (the_session w)).
Definition write (f : session_t → session_t) : M unit :=
  modify (λ w, set_user_data (set_session (f (the_session w))) w).

(** ** Handlers *)

Section Handlers.
Context {U : Unicode}.

Definition load_db : M (gmap (list N) employee) :=
  gets (λ w, default ∅ (employees_json w)).

Definition save_db (data : gmap (list N) employee) : M unit :=
  modify (λ w, {| user_data := user_data w; employees_json := Some data |}).

Definition normalize (name : str) : str := lower (strip name).

(** Creates the session when the user has none. *)
Definition get_session : M unit :=
  modify (λ w, set_user_data (set_session (the_session w)) w).

Definition clear_session : M unit :=
  modify (set_user_data (set_session empty_session)).

(** What a conversation handler returns. *)
Inductive conv := ASK_FLOOR | ASK_ROOM | END.

Definition cmd_clear : M (option conv) :=
  clear_session;;
  send (reply_text msg_cleared_send_new None);;
  mret None.

(** [query.data] is the [callback_data] of the button pressed. *)
Definition cb_done (data : str) : M unit :=
  send answer;;
  if decide (data = lit "done:clear") then
    clear_session;;
    send (edit_message_text msg_cleared None)
  else
    idx ← lift (int (drop 5 data));
    get_session;;
    deliveries ← read deliveries;
    if (idx >=? Z.of_nat (length deliveries))%Z then mret ()
    else
      '(done, deliveries) ← lift (pop deliveries idx);
      write (set_deliveries deliveries);;
      match deliveries with
      | [] =>
          send (edit_message_text (msg_all_done (name done)) None);;
          clear_session
      | _ =>
          text ← lift (format_route deliveries);
          keyboard ← lift (build_route_keyboard deliveries);
          send (edit_message_text (msg_done (name done) text) (Some keyboard))
      end.

(** The entry [{**item, "name": ..., "floor": ..., "room": ...}] of a
    known recipient. *)
Definition stamp (emp : employee) (item : entry) : entry :=
  {| name := default (capitalize (name item)) (full_name emp);
     surname := surname item;
     order := order item;
     floor := Some (emp_floor emp);
     room := Some (emp_room emp) |}.

(** One turn of the loop of [handle_text] over the parsed entries. *)
Definition classify_step (db : gmap (list N) employee)
    (acc : list entry * list entry) (item : entry) : list entry * list entry :=
  let '(known, unknown) := acc in
  match db !! surname item with
  | Some emp => (known ++ [stamp emp item], unknown)
  | None => (known, unknown ++ [item])
  end.

Definition classify (db : gmap (list N) employee) (parsed : list entry)
  : list entry * list entry :=
  foldl (classify_step db) ([], []) parsed.

Definition reply_route (route : list entry) : M unit :=
  text ← lift (format_route route);
  keyboard ← lift (build_route_keyboard route);
  send (reply_text (msg_route text) (Some keyboard)).

Definition handle_text (text : str) : M (option conv) :=
  let text := strip text in
  parsed ← lift (parse_delivery text);
  match parsed with
  | [] =>
      send (reply_text msg_unrecognized None);;
      mret (Some END)
  | _ =>
      db ← load_db;
      get_session;;
      write (set_deliveries []);;
      write (set_pending []);;
      write (set_current None);;
      let '(known, unknown) := classify db parsed in
      write (set_deliveries known);;
      match unknown with
      | [] =>
          let route := optimize_route known in
          write (set_deliveries route);;
          reply_route route;;
          mret (Some END)
      | item :: rest =>
          write (set_pending rest);;
          write (set_current (Some item));;
          send (reply_text (msg_unknown (capitalize (name item))) None);;
          mret (Some ASK_FLOOR)
      end
  end.

(** In [session["current"]["floor"] = int(text)] the right-hand side is
    evaluated first, then [None] refuses the assignment. *)
Definition got_floor (text : str) : M (option conv) :=
  let text := strip text in
  if negb (isdigit text) then
    send (reply_text msg_need_number None);;
    mret (Some ASK_FLOOR)
  else
    get_session;;
    floor ← lift (int text);
    item ← read current;
    match item with
    | None => raise TypeError
    | Some item =>
        write (set_current (Some (set_floor floor item)));;
        send (reply_text (msg_floor_ok text) None);;
        mret (Some ASK_ROOM)
    end.

Definition got_room (text : str) : M (option conv) :=
  let room := strip text in
  get_session;;
  item ← read current;
  match item with
  | None => raise TypeError
  | Some item =>
      let item := set_room room item in
      write (set_current (Some item));;
      db ← load_db;
      match floor item with
      | None => raise KeyError
      | Some item_floor =>
          save_db (<[surname item :=
                       {| full_name := Some (capitalize (name item));
                          emp_floor := item_floor;
                          emp_room := room |}]> db);;
          ds ← read deliveries;
          write (set_deliveries
                   (ds ++
                    [{| name := capitalize (name item);
                        surname := surname item;
                        order := order item;
                        floor := Some item_floor;
                        room := Some room |}]));;
          send (reply_text
                  (msg_saved (capitalize (name item)) item_floor room) None);;
          pending ← read pending;
          match pending with
          | next_item :: rest =>
              write (set_pending rest);;
              write (set_current (Some next_item));;
              send (reply_text (msg_next (capitalize (name next_item))) None);;
              mret (Some ASK_FLOOR)
          | [] =>
              ds ← read deliveries;
              let route := optimize_route ds in
              write (set_deliveries route);;
              reply_route route;;
              mret (Some END)
          end
      end
  end.

Definition cmd_add : M (option conv) :=
  send (reply_text msg_add_prompt None);;
  modify (set_user_data set_manual_add);;
  mret (Some ASK_FLOOR).

Definition got_floor_manual (text : str) : M (option conv) :=
  u ← gets user_data;
  if manual_add u && bool_decide (manual_name u = None) then
    let name := strip text in
    modify (set_user_data (set_manual_name name));;
    send (reply_text (msg_manual_floor (capitalize name)) None);;
    mret (Some ASK_FLOOR)
  else
    let text := strip text in
    if negb (isdigit text) then
      send (reply_text msg_manual_need_number None);;
      mret (Some ASK_FLOOR)
    else
      floor ← lift (int text);
      modify (set_user_data (set_manual_floor floor));;
      send (reply_text (msg_manual_floor_ok text) None);;
      mret (Some ASK_ROOM).

(** *** The conversation of [main]

    An update is a text message that is not a command, or a command. *)
Inductive update :=
| text_message (text : str)
| command (name : str).

Inductive filter_t :=
| TEXT_not_COMMAND                      (* filters.TEXT & ~filters.COMMAND *)
| COMMAND (name : str).                 (* CommandHandler(name, ...) *)

Inductive callback :=
| call_handle_text | call_cmd_add | call_got_floor | call_got_room
| call_cmd_clear | call_got_floor_manual.

Definition entry_points : list (filter_t * callback) :=
  [(TEXT_not_COMMAND, call_handle_text); (COMMAND (lit "add"), call_cmd_add)].

Definition states (st : conv) : list (filter_t * callback) :=
  match st with
  | ASK_FLOOR => [(TEXT_not_COMMAND, call_got_floor)]
  | ASK_ROOM => [(TEXT_not_COMMAND, call_got_room)]
  | END => []
  end.

Definition fallbacks : list (filter_t * callback) :=
  [(COMMAND (lit "clear"), call_cmd_clear)].

Definition allow_reentry : bool := true.

Definition accepts (f : filter_t) (u : update) : bool :=
  match f, u with
  | TEXT_not_COMMAND, text_message _ => true
  | COMMAND n, command n' => bool_decide (n = n')
  | _, _ => false
  end.

(** [update.message.text] *)
Definition message_text (u : update) : str :=
  match u with
  | text_message text => text
  | command n => 47 :: n
  end.

Definition call (c : callback) (u : update) : M (option conv) :=
  match c with
  | call_handle_text => handle_text (message_text u)
  | call_cmd_add => cmd_add
  | call_got_floor => got_floor (message_text u)
  | call_got_room => got_room (message_text u)
  | call_cmd_clear => cmd_clear
  | call_got_floor_manual => got_floor_manual (message_text u)
  end.

Definition matching (u : update) (hs : list (filter_t * callback))
  : list callback :=
  snd <$> List.filter (λ h, accepts h.1 u) hs.

(** The callbacks the conversation can run on an update in state [st]
    ([None]: no conversation is open): an entry point, when no
    conversation is open or re-entry is allowed, a handler of the
    state, or a fallback.  The order in which the library tries them is
    not fixed here: every registered callback that accepts the update
    is a candidate. *)
Definition candidates (st : option conv) (u : update) : list callback :=
  (if bool_decide (st = None) || allow_reentry
   then matching u entry_points else [])
  ++ match st with
     | Some st => matching u (states st) ++ matching u fallbacks
     | None => []
     end.

(** The state of the conversation after a callback returned [r]: [None]
    keeps the state, [END] closes the conversation. *)
Definition next_state (st : option conv) (r : option conv) : option conv :=
  match r with
  | None => st
  | Some END => None
  | Some st' => Some st'
  end.

(** A callback that raises leaves the conversation in its state. *)
Definition settle (st : option conv) (o : outcome (option conv))
  : option conv * world :=
  match o with
  | Done r w _ => (next_state st r, w)
  | Raised _ w _ => (st, w)
  end.

(** All the configurations one update can lead to; an update no
    callback accepts changes nothing. *)
Definition conversation (c : option conv * world) (u : update)
  : list (option conv * world) :=
  match candidates c.1 u with
  | [] => [c]
  | cs => (λ h, settle c.1 (call h u c.2)) <$> cs
  end.

Fixpoint runs (c : option conv * world) (us : list update)
  : list (option conv * world) :=
  match us with
  | [] => [c]
  | u :: us' => conversation c u ≫= (λ c', runs c' us')
  end.

End Handlers.

(** ** Administration: the directory handlers

    [/delete] and its buttons.  These handlers send messages of their
    own. *)

(** [a < b] on [str]: lexicographic on code points. *)
Fixpoint str_lt (a b : str) : bool :=
  match a, b with
  | _, [] => false
  | [], _ :: _ => true
  | x :: a', y :: b' => (x <? y) || ((x =? y) && str_lt a' b')
  end.

Inductive admin_message :=
| msg_db_empty                           (* База пустая. *)
| msg_whom                               (* Кого удалить? *)
| msg_cancelled                          (* Отменено. *)
| msg_deleted (name : str)               (* {name} удалён. *)
| msg_not_found.                         (* Не найден. *)

(** A button of the keyboard of [/delete]. *)
Inductive del_button :=
| employee_button (full_name room : str) (callback_data : str)
| cancel_button (callback_data : str).

Inductive admin_sent :=
| admin_reply_text (m : admin_message) (reply_markup : option (list del_button))
| admin_answer
| admin_edit_message_text (m : admin_message).

(** The keys of the directory in the order of [sorted(db.keys())]; the
    keys are distinct, so the order in which the dictionary lists them
    does not matter. *)
Definition sorted_keys (db : gmap (list N) employee) : list str :=
  sorted str_lt id (map_to_list db).*1.

(** The button of [surname], which must be a key of [db] as in the loop
    of [cmd_delete]. *)
Definition delete_button (db : gmap (list N) employee) (surname : str)
  : result del_button :=
  match db !! surname with
  | Some emp =>
      Ok (employee_button (default (capitalize surname) (full_name emp))
            (emp_room emp) (lit "del:" ++ surname))
  | None => Raise KeyError
  end.

Definition cmd_delete (w : world) : result (list admin_sent) :=
  let db := default ∅ (employees_json w) in
  if decide (db = ∅) then Ok [admin_reply_text msg_db_empty None]
  else
    keyboard ← mapM (delete_button db) (sorted_keys db);
    Ok [admin_reply_text msg_whom
          (Some (keyboard ++ [cancel_button (lit "del:cancel")]))].

(** [cb_delete] cannot raise; it returns the world it leaves and what it
    sent. *)
Definition cb_delete (data : str) (w : world) : world * list admin_sent :=
  if decide (data = lit "del:cancel") then
    (w, [admin_answer; admin_edit_message_text msg_cancelled])
  else
    let surname := drop 4 data in
    let db := default ∅ (employees_json w) in
    match db !! surname with
    | Some emp =>
        let name := default surname (full_name emp) in
        ({| user_data := user_data w;
            employees_json := Some (delete surname db) |},
         [admin_answer; admin_edit_message_text (msg_deleted name)])
    | None => (w, [admin_answer; admin_edit_message_text msg_not_found])
    end.

(** [/list].  A dictionary lists its items in the order of insertion,
    for the directory the order of the file.  The file is kept as a
    finite map, so [cmd_list] takes the items of the directory in the
    order the dictionary has them. *)
Inductive list_line :=
| list_title                            (* СОТРУДНИКИ В БАЗЕ *)
| list_floor (floor : Z)                (* Этаж {floor} *)
| list_person (full_name room : str)    (* • {full_name} — ком. {room} *)
| list_blank
| list_total (n : nat).                 (* Всего: {n} чел. *)

Inductive list_message :=
| msg_list_empty                        (* База пустая. Пришли отбивку *)
| msg_list (lines : list list_line).

(** [by_floor.setdefault(floor, []).append(x)], the dictionary
    [by_floor] as an association list in the order of insertion. *)
Fixpoint setdefault_append (floor : Z) (x : str * employee)
    (by_floor : list (Z * list (str * employee)))
  : list (Z * list (str * employee)) :=
  match by_floor with
  | [] => [(floor, [x])]
  | (f, members) :: rest =>
      if decide (f = floor) then (f, members ++ [x]) :: rest
      else (f, members) :: setdefault_append floor x rest
  end.

Definition group_by_floor (items : list (str * employee))
  : list (Z * list (str * employee)) :=
  foldl (λ by_floor x, setdefault_append (emp_floor x.2) x by_floor) [] items.

Definition person_line (x : str * employee) : list_line :=
  list_person (default (capitalize x.1) (full_name x.2)) (emp_room x.2).

(** The lines of one floor: its members by room. *)
Definition floor_lines (g : Z * list (str * employee)) : list list_line :=
  list_floor g.1
  :: (person_line <$> sorted str_lt (λ x, emp_room x.2) g.2) ++ [list_blank].

Definition cmd_list (items : list (str * employee)) : list_message :=
  match items with
  | [] => msg_list_empty
  | _ =>
      msg_list
        (list_title
         :: (sorted Z.ltb fst (group_by_floor items) ≫= floor_lines)
         ++ [list_total (length items)])
  end.

(** ** The application of [main]

    What reaches the bot: a message, or the press of an inline button
    with its [callback_data]. *)
Inductive event :=
| message_update (u : update)
| callback_query (data : str).

Definition starts_with (prefix s : str) : bool :=
  bool_decide (take (length prefix) s = prefix).

Section Application.
Context {U : Unicode}.

(** The handlers of the application run before the conversation:
    [/start], [/list] and [/delete] only read and answer, [/clear]
    empties the session, the buttons go to [cb_delete] and [cb_done] by
    the prefix of their data, and everything else goes to the
    conversation.  A handler that raises leaves the world it reached. *)
Definition bot_step (c : option conv * world) (e : event)
  : list (option conv * world) :=
  match e with
  | message_update (command n) =>
      if bool_decide (n = lit "start") || bool_decide (n = lit "list")
         || bool_decide (n = lit "delete") then [c]
      else if bool_decide (n = lit "clear") then
        [settle c.1 (cmd_clear c.2)]
      else conversation c (command n)
  | message_update u => conversation c u
  | callback_query data =>
      if starts_with (lit "del:") data then [(c.1, (cb_delete data c.2).1)]
      else if starts_with (lit "done:") data then
        [(c.1, match cb_done data c.2 with
               | Done _ w _ | Raised _ w _ => w
               end)]
      else [c]
  end.

Fixpoint bot_runs (c : option conv * world) (es : list event)
  : list (option conv * world) :=
  match es with
  | [] => [c]
  | e :: es' => bot_step c e ≫= (λ c', bot_runs c' es')
  end.

End Application.

(** ** Vocabulary of the properties *)

(** An entry as the parser makes it: no floor or room yet, and the
    surname is the first token of the name, in lower case. *)
Definition unresolved (e : entry) : Prop :=
  floor e = None ∧ room e = None
  ∧ ∃ first rest, split_ws (name e) = first :: rest ∧ surname e = lower first.

(** A delivery that can be rendered: it has a room. *)
Definition has_room (d : entry) : Prop := is_Some (room d).

(** The session a manifest leaves: what [handle_text] assigns from the
    parsed entries and the directory alone. *)
Definition manifest_session `{U : Unicode} (db : gmap (list N) employee)
    (parsed : list entry) : session_t :=
  let '(known, unknown) := classify db parsed in
  {| deliveries := match unknown with
                   | [] => optimize_route known
                   | _ => known
                   end;
     pending := tail unknown;
     current := head unknown |}.

(** The user data with another value under the key [session]. *)
Definition replace_session (s : option session_t) (w : world) : world :=
  set_user_data (λ u, {| session := s; manual_add := manual_add u;
                         manual_name := manual_name u;
                         manual_floor := manual_floor u |}) w.

(** The invariant of the sessions: every delivery has a room. *)
Definition rooms_known (w : world) : Prop :=
  Forall has_room (deliveries (the_session w)).

(** The world a handler leaves, whether it returns or raises. *)
Definition final {A} (o : outcome A) : world :=
  match o with Done _ w _ | Raised _ w _ => w end.

(** What a completed interview writes for [item]: the record of the
    directory and the delivery of the session. *)
Definition directory_record (item : entry) (f : Z) (r : list N) : employee :=
  {| full_name := Some (capitalize (name item)); emp_floor := f; emp_room := r |}.

Definition resolved (item : entry) (f : Z) (r : list N) : entry :=
  {| name := capitalize (name item); surname := surname item;
     order := order item; floor := Some f; room := Some r |}.

(** An entry whose surname the directory has, or has not. *)
Definition hit (db : gmap (list N) employee) (item : entry) : Prop :=
  is_Some (db !! surname item).
Definition miss (db : gmap (list N) employee) (item : entry) : Prop :=
  db !! surname item = None.

(** Reading an outcome. *)
Definition raised {A} (o : outcome A) : option exn :=
  match o with Done _ _ _ => None | Raised e _ _ => Some e end.
Definition output {A} (o : outcome A) : list sent :=
  match o with Done _ _ out | Raised _ _ out => out end.

(** *** Vocabulary of the further properties *)

(** A name of the grammar: it starts with a letter and has letters,
    whitespace and hyphens only, and its surname is its first token in
    lower case.  An order code of the grammar: three to six decimal
    digits, stripped. *)
Definition grammar_name (e : entry) : Prop :=
  (∃ c s, name e = c :: s ∧ name_start c = true)
  ∧ Forall (λ c, name_char c = true) (name e)
  ∧ strip (name e) = name e
  ∧ ∃ first rest, split_ws (name e) = first :: rest ∧ surname e = lower first.

Definition grammar_order `{U : Unicode} (e : entry) : Prop :=
  ∃ digits, order e = strip digits
            ∧ (3 ≤ length digits ≤ 6)%nat
            ∧ Forall (λ c, is_decimal c = true) digits.

Definition well_formed `{U : Unicode} (e : entry) : Prop :=
  grammar_name e ∧ grammar_order e ∧ floor e = None ∧ room e = None.

(** A delivery with a floor. *)
Definition has_floor (d : entry) : Prop := is_Some (floor d).

(** The deliveries listed in a route text, with their numbers. *)
Definition listed (text : list route_line) : list (nat * list N * list N * list N) :=
  omap (λ ln, match ln with
              | line_item i n r o => Some (i, n, r, o)
              | _ => None
              end) text.

(** The floors of the banners of a route text. *)
Definition banners (text : list route_line) : list (option Z) :=
  omap (λ ln, match ln with line_floor f => Some f | _ => None end) text.

(** The banners the loop of [format_route] emits for a list of floors:
    one wherever the floor differs from the one before. *)
Fixpoint run_starts (cf : option (option Z)) (fl : list (option Z))
  : list (option Z) :=
  match fl with
  | [] => []
  | f :: fl' =>
      (if decide (Some f = cf) then [] else [f]) ++ run_starts (Some f) fl'
  end.

(** Floors in ascending order, all known. *)
Definition floor_le (a b : option Z) : Prop :=
  match a, b with
  | Some x, Some y => (x ≤ y)%Z
  | _, _ => False
  end.

(** The parts of the world outside the session: the directory file and
    the two keys of the manual flow. *)
Definition same_directory (w w' : world) : Prop :=
  employees_json w' = employees_json w.
Definition same_manual (w w' : world) : Prop :=
  manual_name (user_data w') = manual_name (user_data w)
  ∧ manual_floor (user_data w') = manual_floor (user_data w).

(** What an update can do to the directory file. *)
Definition directory_step (c : option conv * world) (e : event)
    (file : option (gmap (list N) employee)) : Prop :=
  let db := default ∅ (employees_json c.2) in
  file = employees_json c.2
  ∨ (∃ text item f,
       e = message_update (text_message text) ∧ c.1 = Some ASK_ROOM
       ∧ current (the_session c.2) = Some item ∧ floor item = Some f
       ∧ file = Some (<[surname item := directory_record item f (strip text)]> db))
  ∨ (∃ k, e = callback_query (lit "del:" ++ k) ∧ is_Some (db !! k)
          ∧ file = Some (delete k db)).

(** Every delivery of the session has a floor and a room: the route can
    be shown. *)
Definition renderable (w : world) : Prop :=
  Forall has_floor (deliveries (the_session w)) ∧ rooms_known w.

(** The line of the manifest an entry stands for. *)
Definition line_of (d : entry) : list N * list N := (surname d, order d).

(** The entries a session holds: delivered to the route, asked about,
    or waiting. *)
Definition in_session (s : session_t) : list entry :=
  deliveries s ++ option_list (current s) ++ pending s.

(** The answers of an interview, in the order they are sent: for each
    entry the text of the floor, the number it stands for, and the text
    of the room. *)
Definition interview_answer := (list N * Z * list N)%type.

(** An interview carried through: the handlers are called as the states
    they return say, [got_room] after [ASK_ROOM] and [got_floor] again
    after [ASK_FLOOR], one answer after the other, none raising, until
    [got_room] returns [END]. *)
Inductive interviewed `{U : Unicode}
  : world → list interview_answer → world → Prop :=
| interviewed_last w a w1 out1 w2 out2 :
    got_floor a.1.1 w = Done (Some ASK_ROOM) w1 out1 →
    got_room a.2 w1 = Done (Some END) w2 out2 →
    interviewed w [a] w2
| interviewed_next w a answers w1 out1 w2 out2 w' :
    got_floor a.1.1 w = Done (Some ASK_ROOM) w1 out1 →
    got_room a.2 w1 = Done (Some ASK_FLOOR) w2 out2 →
    interviewed w2 answers w' →
    interviewed w (a :: answers) w'.

Definition saved (item : entry) (a : interview_answer) : entry :=
  resolved item a.1.2 (strip a.2).

Definition record_answer (db : gmap (list N) employee)
    (ia : entry * interview_answer) : gmap (list N) employee :=
  <[surname ia.1 := directory_record ia.1 ia.2.1.2 (strip ia.2.2)]> db.

(** The people a listing names, in its order. *)
Definition persons (lines : list list_line) : list (list N * list N) :=
  omap (λ ln, match ln with
              | list_person n r => Some (n, r)
              | _ => None
              end) lines.

(** ** Sample inputs *)

(** A user who has not used the bot, with no [employees.json]. *)
Definition fresh_world : world :=
  {| user_data := {| session := None; manual_add := false;
                     manual_name := None; manual_floor := None |};
     employees_json := None |}.

(** The same user after [/add]. *)
Definition add_world : world := set_user_data set_manual_add fresh_world.

(** The entries of the manifest [батталова 0835], [погудин 2397]. *)
Definition battalova : entry :=
  {| name := lit "батталова"; surname := lit "батталова";
     order := lit "0835"; floor := None; room := None |}.
Definition pogudin : entry :=
  {| name := lit "погудин"; surname := lit "погудин";
     order := lit "2397"; floor := None; room := None |}.

(** The interview for [батталова] is open, [погудин] is waiting. *)
Definition interview_world : world :=
  replace_session
    (Some {| deliveries := []; pending := [pogudin]; current := Some battalova |})
    fresh_world.

(** A route of two deliveries. *)
Definition at_3_1 : entry := resolved pogudin 3 (lit "3.1").
Definition at_12_43 : entry := resolved battalova 12 (lit "12.43").

Definition route_world : world :=
  replace_session
    (Some {| deliveries := [at_3_1; at_12_43]; pending := []; current := None |})
    fresh_world.

(** Deliveries for the sentinel keys. *)
Definition no_floor : entry :=
  {| name := lit "Ivanov"; surname := lit "ivanov"; order := lit "111";
     floor := None; room := None |}.
Definition floor_100 : entry :=
  {| name := lit "Petrov"; surname := lit "petrov"; order := lit "222";
     floor := Some 100%Z; room := Some (lit "100.1") |}.
Definition floor_5_no_number : entry :=
  {| name := lit "Sidorov"; surname := lit "sidorov"; order := lit "333";
     floor := Some 5%Z; room := Some (lit "archive") |}.
Definition floor_5_room_120 : entry :=
  {| name := lit "Orlov"; surname := lit "orlov"; order := lit "444";
     floor := Some 5%Z; room := Some (lit "5.120") |}.
Definition floor_5_room_7 : entry :=
  {| name := lit "Orlov"; surname := lit "orlov"; order := lit "555";
     floor := Some 5%Z; room := Some (lit "5.7") |}.

(** A directory with one record, and one with a record under the word
    [cancel]. *)
Definition directory_world : world :=
  {| user_data := user_data fresh_world;
     employees_json :=
       Some (<[lit "батталова" := directory_record battalova 12 (lit "12.43")]> ∅) |}.

Definition cancel_world : world :=
  {| user_data := user_data fresh_world;
     employees_json :=
       Some (<[lit "cancel" := directory_record battalova 12 (lit "12.43")]> ∅) |}.


(** * Properties *)

(** ** The runtime *)

Module PyFacts.

(** The Unicode database restricted to ASCII digits, on which the
    handlers are evaluated at concrete inputs. *)
Definition ascii_decimal (c : N) : option Z :=
  if ascii_digit c then Some (Z.of_N (c - 48)) else None.

Lemma ascii_decimal_cyrillic c :
  in_range 0x400 0x4FF c = true → ascii_decimal c = None.
Proof.
  unfold ascii_decimal, ascii_digit, in_range.
  intros [H1 _]%andb_prop. apply N.leb_le in H1.
  destruct (48 <=? c); [|done]. simpl.
  destruct (N.leb_spec c 57); [lia|done].
Qed.

Lemma ascii_decimal_digit c v : ascii_decimal c = Some v → (0 ≤ v ≤ 9)%Z.
Proof.
  unfold ascii_decimal, ascii_digit, in_range.
  destruct (N.leb_spec 48 c), (N.leb_spec c 57); simpl; try done.
  intros [= <-]. lia.
Qed.

Definition ascii_digits : Unicode := {|
  decimal := ascii_decimal;
  isdigit_char := ascii_digit;
  decimal_ascii c _ := eq_refl;
  decimal_digit := ascii_decimal_digit;
  decimal_cyrillic := ascii_decimal_cyrillic;
  isdigit_ascii c _ := eq_refl;
|}.

Section SortedFacts.
Context {A K : Type} (lt : K → K → bool) (key : A → K).
Hypothesis lt_irrefl : ∀ k, lt k k = false.
Hypothesis lt_asym : ∀ a b, lt a b = true → lt b a = false.
Hypothesis le_trans : ∀ a b c, lt b a = false → lt c b = false → lt c a = false.

(** [x] comes no later than [y] in key order. *)
Definition key_le (x y : A) : Prop := lt (key y) (key x) = false.

#[local] Instance key_le_trans : Transitive key_le.
Proof. intros x y z. unfold key_le. eauto. Qed.

Lemma insert_sorted_perm x l : insert_sorted lt key x l ≡ₚ x :: l.
Proof.
  induction l as [|y l IH]; simpl; [done|].
  destruct (lt (key y) (key x)); [|done].
  rewrite IH. apply Permutation_swap.
Qed.

Lemma sorted_perm l : sorted lt key l ≡ₚ l.
Proof.
  induction l as [|x l IH]; simpl; [done|].
  by rewrite insert_sorted_perm, IH.
Qed.

Lemma insert_sorted_hd x y l :
  key_le y x → HdRel key_le y l → HdRel key_le y (insert_sorted lt key x l).
Proof.
  intros Hyx Hl. destruct l as [|z l]; simpl; [by constructor|].
  destruct (lt (key z) (key x)); constructor; [|done].
  by inversion Hl.
Qed.

Lemma insert_sorted_Sorted x l :
  Sorted key_le l → Sorted key_le (insert_sorted lt key x l).
Proof.
  induction 1 as [|y l Hl IH Hhd]; simpl; [by repeat constructor|].
  destruct (lt (key y) (key x)) eqn:Hlt.
  - constructor; [done|]. apply insert_sorted_hd; [|done].
    by apply lt_asym.
  - repeat constructor; done.
Qed.

Lemma sorted_Sorted l : Sorted key_le (sorted lt key l).
Proof.
  induction l; simpl; [constructor|]. by apply insert_sorted_Sorted.
Qed.

Lemma sorted_StronglySorted l : StronglySorted key_le (sorted lt key l).
Proof. apply Sorted_StronglySorted; [apply _|apply sorted_Sorted]. Qed.

(** A list already in key order is left as it is. *)
Lemma sorted_id l : Sorted key_le l → sorted lt key l = l.
Proof.
  induction 1 as [|x l Hl IH Hhd]; simpl; [done|].
  rewrite IH. destruct Hhd as [|y l' Hxy]; simpl; [done|].
  unfold key_le in Hxy. by rewrite Hxy.
Qed.

Lemma sorted_idemp l : sorted lt key (sorted lt key l) = sorted lt key l.
Proof. apply sorted_id, sorted_Sorted. Qed.

(** Stability: the entries of any one key keep their order. *)
Lemma insert_sorted_filter `{EqDecision K} k x l :
  filter (λ y, key y = k) (insert_sorted lt key x l)
  = filter (λ y, key y = k) (x :: l).
Proof.
  induction l as [|y l IH]; simpl; [done|].
  destruct (lt (key y) (key x)) eqn:Hlt; [|done].
  assert (key y ≠ key x) as Hne.
  { intros Heq. rewrite Heq, lt_irrefl in Hlt. done. }
  rewrite !filter_cons in *.
  destruct (decide (key y = k)) as [Hy|Hy],
           (decide (key x = k)) as [Hx|Hx]; congruence.
Qed.

Lemma sorted_filter `{EqDecision K} k l :
  filter (λ y, key y = k) (sorted lt key l) = filter (λ y, key y = k) l.
Proof.
  induction l as [|x l IH]; simpl; [done|].
  rewrite insert_sorted_filter, !filter_cons, IH. done.
Qed.

(** In a sorted list, a later entry never has a smaller key. *)
Lemma sorted_lookup l i j x y :
  sorted lt key l !! i = Some x → sorted lt key l !! j = Some y →
  (i < j)%nat → lt (key y) (key x) = false.
Proof.
  intros Hi Hj Hij.
  pose proof (sorted_StronglySorted l) as Hs.
  revert i j Hi Hj Hij. induction Hs as [|z l' Hs IH Hall]; intros i j Hi Hj Hij.
  - done.
  - destruct j as [|j]; [lia|]. destruct i as [|i]; simpl in *.
    + injection Hi as ->. rewrite Forall_forall in Hall.
      apply Hall. by eapply list_elem_of_lookup_2.
    + eapply IH; eauto. lia.
Qed.
(** The model is the only stable sort: a list in key order that keeps,
    for every key, the entries of that key as [l] has them, is
    [sorted l].  The keys are totally ordered. *)
Hypothesis lt_total : ∀ a b, lt a b = false → lt b a = false → a = b.

Lemma stable_order_unique `{EqDecision K} l1 l2 :
  StronglySorted key_le l1 → StronglySorted key_le l2 →
  (∀ k, filter (λ y, key y = k) l1 = filter (λ y, key y = k) l2) →
  l1 = l2.
Proof.
  intros Hs1. revert l2.
  induction Hs1 as [|x l1 Hs1 IH Hx]; intros l2 Hs2 Hf.
  - destruct l2 as [|y l2]; [done|].
    specialize (Hf (key y)). by rewrite filter_cons_True in Hf.
  - destruct Hs2 as [|y l2 Hs2 Hy].
    { specialize (Hf (key x)). by rewrite filter_cons_True in Hf. }
    assert (key x = key y) as Hk.
    { destruct (decide (key x = key y)) as [|Hne]; [done|].
      apply lt_total.
      - pose proof (Hf (key x)) as Hfx.
        rewrite filter_cons_True, filter_cons_False in Hfx by done.
        assert (x ∈ l2) as Hin.
        { eapply (list_elem_of_filter (λ z, key z = key x)).
          rewrite <-Hfx. by left. }
        rewrite Forall_forall in Hy. by apply Hy.
      - pose proof (Hf (key y)) as Hfy.
        rewrite filter_cons_False, filter_cons_True in Hfy by done.
        assert (y ∈ l1) as Hin.
        { eapply (list_elem_of_filter (λ z, key z = key y)).
          rewrite Hfy. by left. }
        rewrite Forall_forall in Hx. by apply Hx. }
    pose proof (Hf (key x)) as Hfx.
    rewrite !filter_cons_True in Hfx by done.
    injection Hfx as -> Hfx. f_equal. apply IH; [done|].
    intros k. destruct (decide (key y = k)) as [<-|Hne]; [done|].
    specialize (Hf k). by rewrite !filter_cons_False in Hf.
Qed.

Lemma sorted_unique `{EqDecision K} l l' :
  StronglySorted key_le l' →
  (∀ k, filter (λ y, key y = k) l' = filter (λ y, key y = k) l) →
  l' = sorted lt key l.
Proof.
  intros Hs Hf. apply stable_order_unique; [done|apply sorted_StronglySorted|].
  intros k. by rewrite sorted_filter.
Qed.

End SortedFacts.

Lemma tuple_lt_irrefl k : tuple_lt k k = false.
Proof. unfold tuple_lt. destruct k as [a b]; simpl. lia. Qed.

Lemma tuple_lt_asym a b : tuple_lt a b = true → tuple_lt b a = false.
Proof. unfold tuple_lt. destruct a, b; simpl. lia. Qed.

Lemma tuple_le_trans a b c :
  tuple_lt b a = false → tuple_lt c b = false → tuple_lt c a = false.
Proof. unfold tuple_lt. destruct a, b, c; simpl. lia. Qed.

Lemma tuple_lt_total a b :
  tuple_lt a b = false → tuple_lt b a = false → a = b.
Proof.
  unfold tuple_lt. destruct a as [a1 a2], b as [b1 b2]; simpl.
  intros H1 H2. f_equal; lia.
Qed.

Lemma tuple_lt_false a b :
  tuple_lt b a = false ↔ (a.1 < b.1 ∨ a.1 = b.1 ∧ a.2 ≤ b.2)%Z.
Proof. unfold tuple_lt. destruct a, b; simpl. lia. Qed.

End PyFacts.

Import PyFacts.

(** A text that [isdigit] accepts and [int] converts is a non-negative
    integer: it has no sign. *)
Section IntFacts.
Context {U : Unicode}.

Lemma scan_digits_nonneg s acc n us v n' rest :
  (0 ≤ acc)%Z → scan_digits acc n us s = Some (v, n', rest) → (0 ≤ v)%Z.
Proof.
  revert acc n us. induction s as [|c s IH]; intros acc n us Hacc; simpl.
  - destruct us; [done|]. by intros [= <- _ _].
  - destruct (ascii_digit c).
    + apply IH. lia.
    + destruct (c =? 95).
      * destruct us; [done|]. by apply IH.
      * destruct us; [done|]. by intros [= <- _ _].
Qed.

Lemma lstrip_c_elem c s : c ∈ lstrip_c s → c ∈ s.
Proof.
  induction s as [|c' s IH]; simpl; [done|].
  destruct (c_isspace c'); [|done]. intros ?%IH. by right.
Qed.

Lemma to_ascii_minus s t : to_ascii s = Some t → 45 ∈ t → 45 ∈ s.
Proof.
  revert t. induction s as [|c s IH]; intros t; simpl.
  - intros [= <-]. done.
  - destruct (to_ascii s) as [t'|] eqn:Ht; simpl.
    + destruct (c <? 127).
      * intros [= <-] [->|Hin]%elem_of_cons; [by left|]. right. eauto.
      * destruct (isspace c).
        -- intros [= <-] [?|Hin]%elem_of_cons; [done|]. right. eauto.
        -- destruct (decimal c) as [v|]; [|done]. simpl.
           intros [= <-] [?|Hin]%elem_of_cons; [lia|]. right. eauto.
    + destruct (c <? 127); [done|]. destruct (isspace c); [done|].
      by destruct (decimal c).
Qed.

Lemma isdigit_no_minus s : isdigit s = true → 45 ∉ s.
Proof.
  unfold isdigit. destruct s as [|c s]; [done|].
  intros Hall Hin. rewrite forallb_forall in Hall.
  apply list_elem_of_In, Hall in Hin.
  rewrite isdigit_ascii in Hin by lia. done.
Qed.

Lemma parse_long_nonneg t v : 45 ∉ t → parse_long t = Some v → (0 ≤ v)%Z.
Proof.
  intros Hno. unfold parse_long.
  assert (45 ∉ lstrip_c t) as Hno' by (by intros ?%lstrip_c_elem).
  destruct (lstrip_c t) as [|c r]; [done|].
  destruct (decide (c = 45)) as [->|Hc]; [destruct Hno'; by left|].
  clear Hno Hno'.
  repeat case_match; simplify_eq; try done.
  all: intros [= <-].
  all: match goal with
       | H : scan_digits _ _ _ _ = Some _ |- _ =>
           apply scan_digits_nonneg in H; [lia|done]
       end.
Qed.

Lemma isdigit_int_nonneg s f : isdigit s = true → int s = Ok f → (0 ≤ f)%Z.
Proof.
  intros Hd%isdigit_no_minus. unfold int.
  destruct (to_ascii s) as [t|] eqn:Ht; simpl; [|done].
  destruct (parse_long t) as [v|] eqn:Hp; [|done]. intros [= <-].
  eapply parse_long_nonneg; [|done].
  intros Hin. by eapply Hd, to_ascii_minus.
Qed.

End IntFacts.

(** ** The route builder *)

Section RouteFacts.
Context {U : Unicode}.

Lemma key_floor d : (key d).1 = default 99%Z (floor d).
Proof. done. Qed.

Lemma room_num_absent d : room d = None → room_num d = 99%Z.
Proof. unfold room_num. by intros ->. Qed.

Lemma room_num_ok d r n :
  room d = Some r → room_segment r = Ok n → room_num d = n.
Proof. unfold room_num. intros -> Hseg. simpl. by rewrite Hseg. Qed.

Lemma room_num_unparseable d :
  (∀ r n, room d = Some r → room_segment r ≠ Ok n) → room_num d = 99%Z.
Proof.
  intros Hd. destruct (room d) as [r|] eqn:Hr; [|by apply room_num_absent].
  unfold room_num. rewrite Hr. simpl.
  destruct (room_segment r) as [n|e] eqn:Hseg; [|done].
  by destruct (Hd r n).
Qed.

(** The route is in key order: floor first, room number second. *)
Lemma optimize_route_ordered l i j a b :
  optimize_route l !! i = Some a → optimize_route l !! j = Some b →
  (i < j)%nat →
  ((key a).1 < (key b).1 ∨ (key a).1 = (key b).1 ∧ (key a).2 ≤ (key b).2)%Z.
Proof.
  intros Hi Hj Hij. apply tuple_lt_false.
  eapply (sorted_lookup tuple_lt key); eauto using tuple_lt_asym, tuple_le_trans.
Qed.

Lemma optimize_route_perm l : optimize_route l ≡ₚ l.
Proof. apply sorted_perm. Qed.

(** Any stable arrangement in key order is the one [optimize_route]
    returns, whatever algorithm produced it. *)
Lemma optimize_route_unique l l' :
  StronglySorted (key_le tuple_lt key) l' →
  (∀ k, filter (λ d, key d = k) l' = filter (λ d, key d = k) l) →
  l' = optimize_route l.
Proof.
  apply sorted_unique;
    eauto using tuple_lt_irrefl, tuple_lt_asym, tuple_le_trans, tuple_lt_total.
Qed.

(** C4 (amended): [optimize_route] rearranges the deliveries in
    ascending order of floor and, within a floor, of the integer read from
    the segment of the room label after its first ['.'].  An entry without
    a floor is keyed as floor 99 and an entry whose room has no such
    integer as room 99: the first comes after every entry whose floor is
    known and below 99, the second after every entry of its floor tier
    whose room number is below 99. *)
Theorem optimize_route_sentinel l i j a b :
  optimize_route l !! i = Some a →
  optimize_route l !! j = Some b →
  optimize_route l ≡ₚ l
  ∧ ((i < j)%nat →
     ((key a).1 < (key b).1 ∨ (key a).1 = (key b).1 ∧ (key a).2 ≤ (key b).2)%Z)
  ∧ (floor a = None → (key a).1 = 99%Z)
  ∧ ((∀ r n, room a = Some r → room_segment r ≠ Ok n) → (key a).2 = 99%Z)
  ∧ (∀ f, floor a = None → floor b = Some f → (f < 99)%Z → (j < i)%nat)
  ∧ (∀ r n, (∀ r' n', room a = Some r' → room_segment r' ≠ Ok n') →
       room b = Some r → room_segment r = Ok n →
       (key a).1 = (key b).1 → (n < 99)%Z → (j < i)%nat).
Proof.
  intros Hi Hj. split_and!.
  - apply optimize_route_perm.
  - by eapply optimize_route_ordered.
  - rewrite key_floor. by intros ->.
  - apply room_num_unparseable.
  - intros f Ha Hb Hf.
    destruct (lt_eq_lt_dec i j) as [[Hij| ->]|Hij]; [|congruence|done].
    pose proof (optimize_route_ordered l i j a b Hi Hj Hij) as Hord.
    rewrite !key_floor, Ha, Hb in Hord. simpl in Hord. lia.
  - intros r n Ha Hb Hseg Hfloor Hn.
    pose proof (room_num_unparseable a Ha) as Hka.
    pose proof (room_num_ok b r n Hb Hseg) as Hkb.
    destruct (lt_eq_lt_dec i j) as [[Hij| Heq]|Hij]; [| |done].
    + pose proof (optimize_route_ordered l i j a b Hi Hj Hij) as Hord.
      simpl in *. lia.
    + subst j. assert (a = b) as -> by congruence. simpl in *. lia.
Qed.

(** C7: [optimize_route] is stable: the entries that share a sort key
    (floor, room number) come out in the order they came in. *)
Theorem optimize_route_stable (l : list entry) (k : Z * Z) :
  filter (λ d, key d = k) (optimize_route l) = filter (λ d, key d = k) l.
Proof. apply sorted_filter, tuple_lt_irrefl. Qed.

(** C8: [optimize_route] is idempotent. *)
Theorem optimize_route_idempotent (l : list entry) :
  optimize_route (optimize_route l) = optimize_route l.
Proof. apply sorted_idemp, tuple_lt_asym. Qed.

End RouteFacts.

(** ** The manifest parser *)

(** Goals about character classes: turn the boolean tests into
    arithmetic. *)
Ltac char_ranges :=
  unfold name_char, name_start, dash, isspace, c_isspace, ascii_digit,
    in_range in *;
  repeat match goal with
  | H : _ = false |- _ => apply not_true_iff_false in H
  | |- _ = false => apply not_true_iff_false; intro
  end;
  rewrite ?orb_true_iff, ?andb_true_iff, ?N.leb_le, ?N.eqb_eq in *;
  try lia.

Section ParserFacts.
Context {U : Unicode}.

Lemma decimal_not_letter c : is_decimal c = true → name_start c = false.
Proof.
  unfold is_decimal. intros Hd%bool_decide_eq_true.
  destruct (name_start c) eqn:Hc; [exfalso|done].
  destruct (decide (c < 128)) as [Hlt|Hge].
  - rewrite (decimal_ascii c Hlt) in Hd.
    destruct (ascii_digit c) eqn:Hdig; [|by destruct Hd].
    char_ranges.
  - rewrite decimal_cyrillic in Hd; [by destruct Hd|].
    apply andb_true_iff. rewrite !N.leb_le. char_ranges.
Qed.

Lemma dash_not_letter c : dash c = true → name_start c = false.
Proof. intros. char_ranges. Qed.

Lemma isspace_not_letter c : isspace c = true → name_start c = false.
Proof. intros. char_ranges. Qed.

(** The pattern starts with a letter: nothing else can open a match. *)
Lemma line_re_needs_letter c s :
  name_start c = false → re_match line_re (c :: s) = None.
Proof.
  intros Hc. unfold re_match, line_re. simpl. rewrite Hc. reflexivity.
Qed.

Lemma lstrip_elem c s : c ∈ lstrip s → c ∈ s.
Proof.
  induction s as [|c' s IH]; simpl; [done|].
  destruct (isspace c'); [|done]. intros ?%IH. by right.
Qed.

Lemma strip_elem c s : c ∈ strip s → c ∈ s.
Proof.
  unfold strip. rewrite elem_of_reverse. intros ?%lstrip_elem.
  apply lstrip_elem. by apply elem_of_reverse.
Qed.

Lemma split_on_elem sep s piece c :
  piece ∈ split_on sep s → c ∈ piece → c ∈ s.
Proof.
  revert piece. induction s as [|c' s IH]; simpl; intros piece Hp Hc.
  - apply list_elem_of_singleton in Hp as ->. done.
  - destruct (c' =? sep).
    + apply elem_of_cons in Hp as [->|Hp]; [by apply elem_of_nil in Hc|].
      right. eauto.
    + destruct (split_on sep s) as [|w ws] eqn:Hs.
      * apply list_elem_of_singleton in Hp as ->.
        apply list_elem_of_singleton in Hc as ->. by left.
      * apply elem_of_cons in Hp as [->|Hp].
        -- apply elem_of_cons in Hc as [->|Hc]; [by left|].
           right. apply (IH w); [by left|done].
        -- right. apply (IH piece); [by right|done].
Qed.

Lemma parse_lines_no_letter lines :
  Forall (Forall (λ c, name_start c = false)) lines → parse_lines lines = Ok [].
Proof.
  induction 1 as [|line lines Hline _ IH]; simpl; [done|].
  destruct (strip line) as [|c s] eqn:Hs; [done|].
  rewrite line_re_needs_letter; [done|].
  rewrite Forall_forall in Hline. apply Hline, strip_elem.
  rewrite Hs. by left.
Qed.

(** A manifest without a letter yields no entry. *)
Lemma parse_delivery_no_letter text :
  Forall (λ c, name_start c = false) text → parse_delivery text = Ok [].
Proof.
  intros Htext. apply parse_lines_no_letter.
  apply Forall_forall. intros piece Hpiece.
  apply Forall_forall. intros c Hc.
  rewrite Forall_forall in Htext.
  eapply Htext, strip_elem, split_on_elem; eauto.
Qed.

(** Every match of a repetition stops after some [n] characters of the
    class, at least [lo] of them, where the rest of the pattern
    matches. *)
Lemma rep_sound {R} cls lazy lo hi pos s (k : nat → list N → option R) r :
  rep cls lazy lo hi pos s k = Some r →
  ∃ n, (lo ≤ n ≤ length s)%nat ∧ Forall (λ c, cls c = true) (take n s)
       ∧ k (pos + n)%nat (drop n s) = Some r.
Proof.
  revert lo hi pos. induction s as [|c s IH]; intros lo hi pos; simpl.
  - destruct lo; [|done]. intros Hk. exists 0%nat.
    rewrite Nat.add_0_r. split_and!; [lia|lia|constructor|done].
  - assert (match lo with O => k pos (c :: s) | S _ => None end = Some r →
            ∃ n, (lo ≤ n ≤ S (length s))%nat
                 ∧ Forall (λ c, cls c = true) (take n (c :: s))
                 ∧ k (pos + n)%nat (drop n (c :: s)) = Some r) as Hstop.
    { destruct lo; [|done]. intros Hk. exists 0%nat.
      rewrite Nat.add_0_r. split_and!; [lia|lia|constructor|done]. }
    destruct (cls c) eqn:Hc; simpl; [|done].
    destruct (may_take hi); [|done].
    assert (rep cls lazy (pred lo) (pred <$> hi) (S pos) s k = Some r →
            ∃ n, (lo ≤ n ≤ S (length s))%nat
                 ∧ Forall (λ c, cls c = true) (take n (c :: s))
                 ∧ k (pos + n)%nat (drop n (c :: s)) = Some r) as Hmore.
    { intros (n & Hn & Hall & Hk)%IH. exists (S n). simpl.
      rewrite Nat.add_succ_r. split_and!; [lia|lia|by constructor|done]. }
    unfold or_else.
    destruct lazy.
    + destruct (match lo with O => k pos (c :: s) | S _ => None end) eqn:Hs;
        [exact Hstop|exact Hmore].
    + destruct (rep cls false (pred lo) (pred <$> hi) (S pos) s k) eqn:Hm;
        [exact Hmore|exact Hstop].
Qed.

(** The groups of a match of the line pattern: both took part, and the
    name starts with a letter. *)
Lemma line_re_groups line m :
  re_match line_re line = Some m →
  ∃ c g1 g2, name_start c = true ∧ m !! 1%nat = Some (c :: g1)
             ∧ m !! 2%nat = Some g2.
Proof.
  unfold re_match, line_re. simpl.
  intros (n1 & Hn1 & Hall1 & H)%rep_sound.
  apply rep_sound in H as (n2 & Hn2 & _ & H).
  apply rep_sound in H as (n3 & _ & _ & H).
  apply rep_sound in H as (n4 & _ & _ & H).
  apply rep_sound in H as (n5 & _ & _ & H).
  apply rep_sound in H as (n6 & _ & _ & H).
  apply rep_sound in H as (n7 & _ & _ & H).
  set (g2 := take _ (drop n5 _)) in H.
  assert (m = <[2%nat:=g2]> (<[1%nat:=take (0 + n1 + n2 - 0) line]> ∅)) as ->.
  { repeat case_match; by simplify_eq. }
  destruct line as [|c line]; [simpl in Hn1; lia|].
  destruct n1 as [|n1]; [lia|].
  apply Forall_cons in Hall1 as [Hc _].
  exists c, (take (n1 + n2) line), g2. split_and!; [done| |].
  - rewrite lookup_insert_ne, lookup_insert_eq; [|done].
    by rewrite Nat.sub_0_r.
  - by rewrite lookup_insert_eq.
Qed.

Lemma lstrip_snoc s c :
  isspace c = false → ∃ s', lstrip (s ++ [c]) = s' ++ [c].
Proof.
  intros Hc. induction s as [|c' s IH]; simpl.
  - rewrite Hc. by exists [].
  - destruct (isspace c'); [done|]. by exists (c' :: s).
Qed.

Lemma strip_head c s : isspace c = false → ∃ s', strip (c :: s) = c :: s'.
Proof.
  intros Hc. unfold strip. simpl. rewrite Hc, reverse_cons.
  destruct (lstrip_snoc (reverse s) c Hc) as [s' ->].
  exists (reverse s'). by rewrite reverse_snoc.
Qed.

Lemma split_ws_from_pending cur s : cur ≠ [] → split_ws_from cur s ≠ [].
Proof.
  revert cur. induction s as [|c s IH]; intros cur Hcur; simpl.
  - by destruct cur.
  - destruct (isspace c); [by destruct cur|]. by apply IH.
Qed.

Lemma split_ws_head c s :
  isspace c = false → ∃ w ws, split_ws (c :: s) = w :: ws.
Proof.
  intros Hc. unfold split_ws. simpl. rewrite Hc.
  pose proof (split_ws_from_pending [c] s) as Hne.
  destruct (split_ws_from [c] s) as [|w ws]; [by destruct Hne|eauto].
Qed.

Lemma letter_not_space c : name_start c = true → isspace c = false.
Proof.
  intros Hc. destruct (isspace c) eqn:Hs; [|done].
  apply isspace_not_letter in Hs. congruence.
Qed.

(** The parser never raises: the name of a matched line has a first
    token. *)
Lemma parse_lines_total lines : ∃ results, parse_lines lines = Ok results.
Proof.
  induction lines as [|line lines [results IH]]; simpl; [by eexists|].
  destruct (strip line) as [|c0 s0]; [by eexists|].
  destruct (re_match line_re (c0 :: s0)) as [m|] eqn:Hm; [|by eexists].
  apply line_re_groups in Hm as (c & g1 & g2 & Hc%letter_not_space & H1 & H2).
  unfold group_strip. rewrite H1, H2. simpl.
  destruct (strip_head c g1 Hc) as [s' ->].
  destruct (split_ws_head c s' Hc) as (w & ws & ->). simpl.
  rewrite IH. simpl. by eexists.
Qed.

Lemma parse_delivery_total text : ∃ results, parse_delivery text = Ok results.
Proof. apply parse_lines_total. Qed.

Lemma parse_lines_unresolved lines parsed :
  parse_lines lines = Ok parsed → Forall unresolved parsed.
Proof.
  revert parsed. induction lines as [|line lines IH]; intros parsed; simpl.
  - by intros [= <-].
  - destruct (strip line) as [|c0 s0]; [by apply IH|].
    destruct (re_match line_re (c0 :: s0)) as [m|] eqn:Hm; [|by apply IH].
    apply line_re_groups in Hm as (c & g1 & g2 & Hc%letter_not_space & H1 & H2).
    unfold group_strip. rewrite H1, H2. simpl.
    destruct (strip_head c g1 Hc) as [s' ->].
    destruct (split_ws_head c s' Hc) as (w & ws & Hw). rewrite Hw. simpl.
    destruct (parse_lines lines) as [results|e]; simpl; [|done].
    intros [= <-]. constructor; [|by apply IH].
    split_and!; [done..|]. exists w, ws. done.
Qed.

Lemma parse_delivery_unresolved text parsed :
  parse_delivery text = Ok parsed → Forall unresolved parsed.
Proof. apply parse_lines_unresolved. Qed.

(** C6 (amended): the name is required by the grammar.  A line made of
    an order code of 3 to 6 digits alone, with or without a dash-class
    separator and whitespace in front of it, is not parsed into an entry:
    it is dropped. *)
Theorem order_code_alone_is_dropped (sep ws digits : list N) :
  (length sep ≤ 1)%nat →
  Forall (λ c, dash c = true) sep →
  Forall (λ c, isspace c = true) ws →
  Forall (λ c, is_decimal c = true) digits →
  (3 ≤ length digits ≤ 6)%nat →
  parse_delivery (sep ++ ws ++ digits) = Ok [].
Proof.
  intros _ Hsep Hws Hdigits _. apply parse_delivery_no_letter.
  rewrite !Forall_app. split_and!.
  - eapply Forall_impl; [done|]. apply dash_not_letter.
  - eapply Forall_impl; [done|]. apply isspace_not_letter.
  - eapply Forall_impl; [done|]. apply decimal_not_letter.
Qed.

End ParserFacts.

(** ** The handlers *)

(** Assignments to the session and what they leave. *)
Lemma the_session_set s w : the_session (set_user_data (set_session s) w) = s.
Proof. done. Qed.

Lemma set_session_set s s' w :
  set_user_data (set_session s) (set_user_data (set_session s') w)
  = set_user_data (set_session s) w.
Proof. done. Qed.

Lemma employees_json_set f w :
  employees_json (set_user_data f w) = employees_json w.
Proof. done. Qed.

Create Rewrite HintDb world.
#[export] Hint Rewrite the_session_set set_session_set employees_json_set : world.

Section HandlerFacts.
Context {U : Unicode}.

Lemma route_items_ok i current_floor l :
  Forall has_room l → ∃ lines, route_items i current_floor l = Ok lines.
Proof.
  intros Hl. revert i current_floor.
  induction Hl as [|d l [r Hr] _ IH]; intros i cf; simpl; [by eexists|].
  rewrite Hr. destruct (IH (S i) (Some (floor d))) as [lines ->].
  simpl. by eexists.
Qed.

Lemma format_route_ok l : Forall has_room l → ∃ text, format_route l = Ok text.
Proof.
  intros Hl. unfold format_route. destruct l as [|d l]; [by eexists|].
  destruct (route_items_ok 1 None (d :: l) Hl) as [lines ->].
  simpl. by eexists.
Qed.

Lemma route_buttons_ok i l :
  Forall has_room l → ∃ keyboard, route_buttons i l = Ok keyboard.
Proof.
  intros Hl. revert i.
  induction Hl as [|d l [r Hr] _ IH]; intros i; simpl; [by eexists|].
  rewrite Hr. destruct (IH (S i)) as [keyboard ->]. simpl. by eexists.
Qed.

Lemma reply_route_ok route :
  Forall has_room route →
  ∃ text keyboard,
    format_route route = Ok text ∧ build_route_keyboard route = Ok keyboard
    ∧ ∀ w, reply_route route w
           = Done () w [reply_text (msg_route text) (Some keyboard)].
Proof.
  intros Hl. destruct (format_route_ok route Hl) as [text Ht].
  destruct (route_buttons_ok 0 route Hl) as [keyboard Hk].
  exists text, keyboard. split_and!; [done..|]. intros w.
  unfold reply_route, build_route_keyboard. rewrite Ht, Hk. done.
Qed.

Lemma optimize_route_has_room l :
  Forall has_room l → Forall has_room (optimize_route l).
Proof. intros Hl. by rewrite optimize_route_perm. Qed.

(** *** Classification *)

Lemma classify_foldl db known unknown parsed :
  foldl (classify_step db) (known, unknown) parsed
  = (known ++ omap (λ item, emp ← db !! surname item; Some (stamp emp item)) parsed,
     unknown ++ filter (miss db) parsed).
Proof.
  revert known unknown.
  induction parsed as [|item parsed IH]; intros known unknown; simpl.
  - by rewrite !app_nil_r.
  - destruct (db !! surname item) as [emp|] eqn:Hdb; simpl.
    + rewrite IH, <-app_assoc, filter_cons_False; [done|].
      unfold miss. congruence.
    + rewrite IH, <-app_assoc, filter_cons_True; done.
Qed.

Lemma classify_known db parsed :
  (classify db parsed).1
  = omap (λ item, emp ← db !! surname item; Some (stamp emp item)) parsed.
Proof. unfold classify. by rewrite classify_foldl. Qed.

Lemma classify_unknown db parsed :
  (classify db parsed).2 = filter (miss db) parsed.
Proof. unfold classify. by rewrite classify_foldl. Qed.

Lemma classify_has_room db parsed : Forall has_room (classify db parsed).1.
Proof.
  rewrite classify_known. induction parsed as [|item parsed IH]; simpl; [done|].
  destruct (db !! surname item); simpl; [|done].
  constructor; [by eexists|done].
Qed.

(** C9: classification splits the parsed entries into the known ones
    (found in the directory) and the unknown ones (not found); each part
    keeps the order of the manifest, and a known entry carries the floor
    and the room the directory has for its surname at that moment. *)
Theorem classify_partition (db : gmap (list N) employee) (parsed : list entry) :
  (classify db parsed).2 = filter (miss db) parsed
  ∧ Forall2 (λ item k, ∃ emp, db !! surname item = Some emp
                              ∧ floor k = Some (emp_floor emp)
                              ∧ room k = Some (emp_room emp)
                              ∧ surname k = surname item
                              ∧ order k = order item)
      (filter (hit db) parsed) (classify db parsed).1.
Proof.
  split; [apply classify_unknown|].
  rewrite classify_known.
  induction parsed as [|item parsed IH]; simpl; [constructor|].
  destruct (db !! surname item) as [emp|] eqn:Hdb; simpl.
  - rewrite filter_cons_True by (unfold hit; eauto). constructor; [|done].
    exists emp. done.
  - rewrite filter_cons_False; [done|]. unfold hit. rewrite Hdb. by intros [? ?].
Qed.

(** *** Receiving a manifest *)

(** C2 (amended): when no line of the text matches the grammar,
    [handle_text] answers with the unrecognized-format message and closes
    the conversation; the session (deliveries, pending, current) and the
    directory file are left exactly as they were. *)
Theorem handle_text_unrecognized (text : list N) (w : world) :
  parse_delivery (strip text) = Ok [] →
  handle_text text w = Done (Some END) w [reply_text msg_unrecognized None].
Proof.
  intros Hp. unfold handle_text. unfold mbind, M_bind. rewrite Hp. done.
Qed.

(** What [handle_text] does with a manifest that has entries. *)
Lemma handle_text_manifest text parsed w :
  parse_delivery (strip text) = Ok parsed → parsed ≠ [] →
  let db := default ∅ (employees_json w) in
  ∃ out,
    handle_text text w
    = Done (match (classify db parsed).2 with
            | [] => Some END
            | _ => Some ASK_FLOOR
            end)
        (replace_session (Some (manifest_session db parsed)) w) out.
Proof.
  intros Hp Hne db. unfold handle_text. unfold mbind at 1, M_bind at 1.
  rewrite Hp. simpl.
  destruct parsed as [|item0 parsed0]; [done|].
  set (parsed := item0 :: parsed0) in *.
  unfold manifest_session. fold db.
  pose proof (classify_has_room db parsed) as Hroom.
  destruct (classify db parsed) as [known unknown] eqn:Hc.
  simpl in Hroom.
  unfold mbind, M_bind. simpl. fold db. rewrite Hc.
  destruct unknown as [|item rest]; simpl.
  - destruct (reply_route_ok (optimize_route known)) as (t & kb & _ & _ & ->).
    { by apply optimize_route_has_room. }
    eexists. reflexivity.
  - eexists. reflexivity.
Qed.

Lemma manifest_session_has_room db parsed :
  Forall has_room (deliveries (manifest_session db parsed)).
Proof.
  unfold manifest_session.
  pose proof (classify_has_room db parsed) as Hroom.
  destruct (classify db parsed) as [known [|item rest]]; simpl in *; [|done].
  by apply optimize_route_has_room.
Qed.

(** C10: a manifest with at least one entry replaces the three fields of
    the session, whatever the session was before: the session that
    [handle_text] leaves, its answer and the state it returns are those
    computed from the manifest and the directory, for every prior
    session. *)
Theorem handle_text_overwrites_session
    (text : list N) (parsed : list entry) (w : world) :
  parse_delivery (strip text) = Ok parsed → parsed ≠ [] →
  ∃ r out, ∀ prior : option session_t,
    handle_text text (replace_session prior w)
    = Done r
        (replace_session
           (Some (manifest_session (default ∅ (employees_json w)) parsed)) w)
        out.
Proof.
  intros Hp Hne.
  destruct (handle_text_manifest text parsed w Hp Hne) as [out Hw].
  eexists _, out. intros prior.
  assert (handle_text text (replace_session prior w) = handle_text text w)
    as ->; [|exact Hw].
  unfold handle_text. unfold mbind at 1 3, M_bind at 1 3. rewrite Hp. simpl.
  destruct parsed; [done|]. reflexivity.
Qed.

(** *** The interview *)

Lemma got_floor_ok text f item w :
  isdigit (strip text) = true → int (strip text) = Ok f →
  current (the_session w) = Some item →
  got_floor text w
  = Done (Some ASK_ROOM)
      (set_user_data
         (set_session (set_current (Some (set_floor f item)) (the_session w))) w)
      [reply_text (msg_floor_ok (strip text)) None].
Proof.
  intros Hd Hi Hc. unfold got_floor. rewrite Hd. simpl.
  unfold mbind, M_bind. simpl. rewrite Hi. simpl.
  autorewrite with world. rewrite Hc. simpl. by autorewrite with world.
Qed.

Lemma got_room_ok text f item w :
  current (the_session w) = Some item → floor item = Some f →
  Forall has_room (deliveries (the_session w)) →
  let room := strip text in
  let ds := deliveries (the_session w) ++ [resolved item f room] in
  ∃ out,
    got_room text w
    = Done (match pending (the_session w) with
            | [] => Some END
            | _ => Some ASK_FLOOR
            end)
        {| user_data :=
             set_session
               (match pending (the_session w) with
                | [] => {| deliveries := optimize_route ds; pending := [];
                           current := Some (set_room room item) |}
                | next_item :: rest =>
                    {| deliveries := ds; pending := rest;
                       current := Some next_item |}
                end) (user_data w);
           employees_json :=
             Some (<[surname item := directory_record item f room]>
                     (default ∅ (employees_json w))) |}
        out.
Proof.
  intros Hc Hf Hroom room ds.
  destruct (reply_route_ok (optimize_route ds)) as (t & kb & _ & _ & Hr).
  { apply optimize_route_has_room, Forall_app. split; [done|].
    repeat constructor. by eexists. }
  destruct w as [[[sess|] ma mn mf] file]; [|done].
  unfold the_session in *. simpl in *. unfold got_room.
  unfold mbind, M_bind. simpl. unfold the_session. simpl.
  rewrite Hc. simpl. rewrite Hf. simpl. unfold the_session. simpl.
  destruct (pending sess) as [|next_item rest] eqn:Hp; simpl.
  - fold room. fold (resolved item f room). fold ds.
    rewrite Hr. unfold set_user_data, set_session, set_deliveries, set_current.
    simpl. rewrite Hp. eexists. reflexivity.
  - eexists. reflexivity.
Qed.

Lemma filter_none {A} (P : A → Prop) `{∀ x, Decision (P x)} (l : list A) :
  Forall (λ x, ¬ P x) l → filter P l = [].
Proof.
  induction 1 as [|x l Hx _ IH]; [done|]. by rewrite filter_cons_False.
Qed.

(** A surname the directory has is classified as known, with the
    directory's record. *)
Lemma classify_hit db parsed key_ emp :
  db !! key_ = Some emp →
  (∀ item, item ∈ (classify db parsed).2 → surname item ≠ key_)
  ∧ (∀ item, item ∈ parsed → surname item = key_ →
       stamp emp item ∈ (classify db parsed).1).
Proof.
  intros Hdb. rewrite classify_unknown, classify_known. split.
  - intros item [Hmiss _]%list_elem_of_filter Hs.
    unfold miss in Hmiss. congruence.
  - intros item Hin Hs. apply list_elem_of_omap. exists item.
    split; [done|]. simpl. by rewrite Hs, Hdb.
Qed.

(** C5: one full interview for the current entry (a floor text that is
    digits and converts to an integer, which is then not negative, and a
    room text) writes the record
    [{full_name, floor, room}] into the directory under the entry's
    surname, replacing whatever was there; the resolved entry is appended
    to the deliveries of the session (which are then sorted if the
    interview was the last one); and from then on classification finds
    that surname in the directory: a manifest of that surname alone is
    answered with a route, without an interview. *)
Theorem interview_makes_surname_known
    (w : world) (item : entry) (floor_text room_text : list N) (f : Z) :
  current (the_session w) = Some item →
  Forall has_room (deliveries (the_session w)) →
  isdigit (strip floor_text) = true →
  int (strip floor_text) = Ok f →
  let room := strip room_text in
  let record := directory_record item f room in
  let ds := deliveries (the_session w) ++ [resolved item f room] in
  ∃ w1 out1 r w2 out2,
    (0 ≤ f)%Z
    ∧ got_floor floor_text w = Done (Some ASK_ROOM) w1 out1
    ∧ got_room room_text w1 = Done r w2 out2
    ∧ employees_json w2
      = Some (<[surname item := record]> (default ∅ (employees_json w)))
    ∧ deliveries (the_session w2)
      = match pending (the_session w) with
        | [] => optimize_route ds
        | _ => ds
        end
    ∧ (∀ parsed,
         let known_unknown := classify (default ∅ (employees_json w2)) parsed in
         (∀ i, i ∈ known_unknown.2 → surname i ≠ surname item)
         ∧ (∀ i, i ∈ parsed → surname i = surname item →
              stamp record i ∈ known_unknown.1))
    ∧ (∀ text parsed,
         parse_delivery (strip text) = Ok parsed → parsed ≠ [] →
         Forall (λ i, surname i = surname item) parsed →
         ∃ w3 out3, handle_text text w2 = Done (Some END) w3 out3).
Proof.
  intros Hc Hroom Hd Hi room record ds.
  pose proof (got_floor_ok floor_text f item w Hd Hi Hc) as Hfloor.
  set (w1 := set_user_data _ w) in Hfloor.
  destruct (got_room_ok room_text f (set_floor f item) w1) as [out2 Hgot];
    [done..|].
  set (w2 := Build_world _ _) in Hgot.
  assert (default ∅ (employees_json w2) !! surname item = Some record) as Hdb.
  { simpl. apply lookup_insert_eq. }
  eexists w1, _, _, w2, out2.
  split_and!; [by eapply isdigit_int_nonneg|done|exact Hgot|done| | |].
  - subst w2 w1. unfold the_session at 1. simpl. autorewrite with world.
    simpl. by destruct (pending (the_session w)).
  - intros parsed. by apply classify_hit.
  - intros text parsed Hp Hne Hall.
    destruct (handle_text_manifest text parsed w2 Hp Hne) as [out3 Hw3].
    rewrite Hw3. rewrite classify_unknown.
    assert (filter (miss (default ∅ (employees_json w2))) parsed = []) as ->.
    { apply filter_none. eapply Forall_impl; [exact Hall|].
      intros i Hs. unfold miss. rewrite Hs, Hdb. done. }
    by eexists _, _.
Qed.

(** *** The invariant

    Every handler leaves a session whose deliveries all have a room,
    also when it raises. *)

Lemma handle_text_rooms text w :
  rooms_known w → rooms_known (final (handle_text text w)).
Proof.
  intros Hw. destruct (parse_delivery_total (strip text)) as [parsed Hp].
  destruct (decide (parsed = [])) as [->|Hne].
  - unfold handle_text, mbind, M_bind. rewrite Hp. done.
  - destruct (handle_text_manifest text parsed w Hp Hne) as [out ->].
    apply manifest_session_has_room.
Qed.

Lemma got_floor_rooms text w :
  rooms_known w → rooms_known (final (got_floor text w)).
Proof.
  intros Hw. unfold got_floor.
  destruct (isdigit (strip text)); simpl; [|done].
  unfold mbind, M_bind. simpl.
  destruct (int (strip text)) as [f|e]; simpl; [|done].
  autorewrite with world.
  destruct (current (the_session w)); simpl; done.
Qed.

Lemma got_room_rooms text w :
  rooms_known w → rooms_known (final (got_room text w)).
Proof.
  intros Hw.
  destruct (current (the_session w)) as [item|] eqn:Hc.
  - destruct (floor item) as [f|] eqn:Hf.
    + destruct (got_room_ok text f item w Hc Hf Hw) as [out ->].
      assert (Forall has_room
                (deliveries (the_session w) ++ [resolved item f (strip text)]))
        as Hds.
      { apply Forall_app. split; [done|]. repeat constructor. by eexists. }
      unfold rooms_known. unfold the_session at 1. simpl.
      destruct (pending (the_session w)); simpl; [|done].
      by apply optimize_route_has_room.
    + unfold got_room, mbind, M_bind. simpl. autorewrite with world.
      rewrite Hc. simpl. rewrite Hf. simpl.
      unfold rooms_known in *. by autorewrite with world.
  - unfold got_room, mbind, M_bind. simpl. autorewrite with world.
    rewrite Hc. simpl. unfold rooms_known in *. by autorewrite with world.
Qed.

Lemma pop_Forall {A} (P : A → Prop) (l : list A) i x l' :
  pop l i = Ok (x, l') → Forall P l → Forall P l'.
Proof.
  unfold pop. cbv zeta.
  destruct (_ || _); [done|]. destruct (l !! _); [|done].
  intros [= <- <-]. apply Forall_delete.
Qed.

Lemma cb_done_rooms data w :
  rooms_known w → rooms_known (final (cb_done data w)).
Proof.
  intros Hw. unfold rooms_known in *. unfold cb_done, mbind, M_bind. simpl.
  case_decide; simpl; [by constructor|].
  destruct (int (drop 5 data)) as [idx|e]; simpl; [|done].
  autorewrite with world.
  destruct (idx >=? _)%Z; simpl; [by autorewrite with world|].
  destruct (pop (deliveries (the_session w)) idx) as [[done ds]|e] eqn:Hpop;
    simpl; [|by autorewrite with world].
  apply pop_Forall with (P := has_room) in Hpop; [|done].
  destruct (reply_route_ok ds Hpop) as (t & kb & Ht & Hk & _).
  rewrite Ht, Hk.
  destruct ds as [|d ds]; simpl; [by constructor|].
  by autorewrite with world.
Qed.

Lemma call_rooms h u w : rooms_known w → rooms_known (final (call h u w)).
Proof.
  intros Hw. destruct h; simpl.
  - by apply handle_text_rooms.
  - done.
  - by apply got_floor_rooms.
  - by apply got_room_rooms.
  - by constructor.
  - unfold got_floor_manual, mbind, M_bind. simpl.
    destruct (_ && _); simpl; [done|].
    destruct (isdigit _); simpl; [|done].
    destruct (int _); simpl; done.
Qed.

Lemma runs_rooms us c c' :
  c' ∈ runs c us → rooms_known c.2 → rooms_known c'.2.
Proof.
  revert c. induction us as [|u us IH]; intros c; simpl.
  - by intros ->%list_elem_of_singleton.
  - intros (c1 & Hin & Hc1)%list_elem_of_bind Hw.
    apply (IH c1 Hin). unfold conversation in Hc1.
    destruct (candidates c.1 u) as [|h hs] eqn:Hcs.
    + by apply list_elem_of_singleton in Hc1 as ->.
    + apply list_elem_of_fmap in Hc1 as (h' & -> & _).
      pose proof (call_rooms h' u c.2 Hw) as Hr.
      by destruct (call h' u c.2).
Qed.

(** *** Marking a delivery *)

(** C3 (amended): a mark-delivered action whose index is at or beyond
    the length of the route does nothing: apart from the acknowledgement
    of the callback nothing is sent, nothing is raised, and the
    deliveries of the session, with them the actions of the keyboard, and
    the directory stay as they were. *)
Theorem cb_done_stale_index (data : list N) (idx : Z) (w : world) :
  data ≠ lit "done:clear" →
  int (drop 5 data) = Ok idx →
  (Z.of_nat (length (deliveries (the_session w))) ≤ idx)%Z →
  ∃ w', cb_done data w = Done () w' [answer]
        ∧ the_session w' = the_session w
        ∧ employees_json w' = employees_json w
        ∧ build_route_keyboard (deliveries (the_session w'))
          = build_route_keyboard (deliveries (the_session w)).
Proof.
  intros Hdata Hint Hidx.
  exists (set_user_data (set_session (the_session w)) w).
  split_and!; [|done..].
  unfold cb_done. rewrite decide_False by done.
  unfold mbind, M_bind. simpl. rewrite Hint. simpl.
  autorewrite with world.
  destruct (Z.geb_spec idx (Z.of_nat (length (deliveries (the_session w)))));
    [done|lia].
Qed.

End HandlerFacts.

(** ** The handlers on concrete inputs

    The inputs are ASCII and Cyrillic text, on which every Unicode
    database agrees with [ascii_digits]. *)

Ltac not_listed :=
  let H := fresh in
  intros H;
  repeat (apply elem_of_cons in H as [H|H]; [discriminate H|]);
  by apply elem_of_nil in H.

Section Concrete.
#[local] Existing Instance ascii_digits.

Example parse_two_lines :
  parse_delivery (lit "surnameA 0835" ++ [LF] ++ lit "surnameB 2397")
  = Ok [ {| name := lit "surnameA"; surname := lit "surnamea";
            order := lit "0835"; floor := None; room := None |};
         {| name := lit "surnameB"; surname := lit "surnameb";
            order := lit "2397"; floor := None; room := None |} ].
Proof. vm_compute. reflexivity. Qed.

Example parse_with_dash :
  parse_delivery (lit "Батталова Лейла — 0835")
  = Ok [ {| name := lit "Батталова Лейла"; surname := lit "батталова";
            order := lit "0835"; floor := None; room := None |} ].
Proof. vm_compute. reflexivity. Qed.

Example manifest_opens_interview :
  final (handle_text (lit "батталова 0835" ++ [LF] ++ lit "погудин 2397")
           fresh_world)
  = interview_world.
Proof. vm_compute. reflexivity. Qed.

(** C1: the manual-add flow of the source.  [got_floor_manual] is
    registered nowhere, so after [/add] the typed surname goes to
    [got_floor] (or to the entry point [handle_text]): it is refused as
    not a number (or as not a manifest), it is stored nowhere and seeds no
    [current], the floor typed next raises on the empty session, and in
    every run of the conversation the directory file is never written. *)
Theorem manual_add_is_not_wired :
  (∀ st u, call_got_floor_manual ∉ candidates st u)
  ∧ cmd_add fresh_world
    = Done (Some ASK_FLOOR) add_world [reply_text msg_add_prompt None]
  ∧ (∀ text, candidates (Some ASK_FLOOR) (text_message text)
             = [call_handle_text; call_got_floor])
  ∧ got_floor (lit "батталова") add_world
    = Done (Some ASK_FLOOR) add_world [reply_text msg_need_number None]
  ∧ handle_text (lit "батталова") add_world
    = Done (Some END) add_world [reply_text msg_unrecognized None]
  ∧ raised (got_floor (lit "12") add_world) = Some TypeError
  ∧ Forall (λ c, employees_json c.2 = None
                 ∧ manual_name (user_data c.2) = None
                 ∧ current (the_session c.2) = None)
      (runs (None, fresh_world)
         [command (lit "add"); text_message (lit "батталова");
          text_message (lit "12"); text_message (lit "12.43")]).
Proof.
  split_and!.
  - intros st u. unfold candidates, matching.
    destruct st as [[| |]|], u as [text|n]; simpl;
      repeat case_bool_decide; simpl; not_listed.
  - reflexivity.
  - reflexivity.
  - vm_compute. reflexivity.
  - vm_compute. reflexivity.
  - vm_compute. reflexivity.
  - vm_compute. repeat constructor.
Qed.

(** With an interview open, the manual-add flow completes the interview
    of the manifest instead: the record goes under the surname of the
    manifest entry, which is also appended to the deliveries. *)
Example manual_add_during_interview :
  let c := (Some ASK_FLOOR, interview_world) in
  ∃ w, (Some ASK_FLOOR, w)
         ∈ runs c [command (lit "add"); text_message (lit "евстратов");
                   text_message (lit "12"); text_message (lit "12.43")]
       ∧ default ∅ (employees_json w) !! lit "евстратов" = None
       ∧ default ∅ (employees_json w) !! lit "батталова"
         = Some (directory_record battalova 12 (lit "12.43"))
       ∧ deliveries (the_session w) = [at_12_43].
Proof.
  eexists. split_and!.
  - vm_compute. do 3 right. left.
  - vm_compute. reflexivity.
  - vm_compute. reflexivity.
  - vm_compute. reflexivity.
Qed.

(** C2, as stated, fails: a text without a manifest line leaves the
    open interview in the session; nothing is cleared. *)
Lemma unrecognized_text_keeps_interview :
  parse_delivery (strip (lit "привет")) = Ok []
  ∧ handle_text (lit "привет") interview_world
    = Done (Some END) interview_world [reply_text msg_unrecognized None]
  ∧ pending (the_session interview_world) = [pogudin]
  ∧ current (the_session interview_world) = Some battalova.
Proof. split_and!; vm_compute; reflexivity. Qed.

Lemma handle_text_unrecognized_witness :
  parse_delivery (strip (lit "привет")) = Ok []
  ∧ handle_text (lit "привет") route_world
    = Done (Some END) route_world [reply_text msg_unrecognized None].
Proof.
  split; [vm_compute; reflexivity|].
  apply (handle_text_unrecognized (lit "привет") route_world).
  vm_compute. reflexivity.
Defined.

(** C3, as stated, fails on negative indices: [-1] removes the last
    delivery and the route is sent again, [-3] raises on a route of
    two. *)
Lemma negative_index_is_not_ignored :
  deliveries (the_session route_world) = [at_3_1; at_12_43]
  ∧ int (drop 5 (lit "done:-1")) = Ok (-1)%Z
  ∧ raised (cb_done (lit "done:-1") route_world) = None
  ∧ deliveries (the_session (final (cb_done (lit "done:-1") route_world)))
    = [at_3_1]
  ∧ length (output (cb_done (lit "done:-1") route_world)) = 2%nat
  ∧ raised (cb_done (lit "done:-3") route_world) = Some IndexError.
Proof. split_and!; vm_compute; reflexivity. Qed.

Lemma cb_done_stale_index_witness :
  lit "done:2" ≠ lit "done:clear"
  ∧ int (drop 5 (lit "done:2")) = Ok 2%Z
  ∧ (Z.of_nat (length (deliveries (the_session route_world))) ≤ 2)%Z
  ∧ ∃ w', cb_done (lit "done:2") route_world = Done () w' [answer]
          ∧ the_session w' = the_session route_world.
Proof.
  assert (lit "done:2" ≠ lit "done:clear") as Hne by (vm_compute; discriminate).
  assert (int (drop 5 (lit "done:2")) = Ok 2%Z) as Hint
    by (vm_compute; reflexivity).
  assert (Z.of_nat (length (deliveries (the_session route_world))) ≤ 2)%Z
    as Hlen by (vm_compute; discriminate).
  split_and!; [exact Hne|exact Hint|exact Hlen|].
  destruct (cb_done_stale_index (lit "done:2") 2 route_world Hne Hint Hlen)
    as (w' & Hdone & Hsession & _).
  exists w'. split; assumption.
Defined.

(** C4, as stated, fails at the sentinel: a delivery without a floor
    stays in front of one on floor 100, and a room without a number stays
    in front of room 120 of its floor. *)
Lemma sentinel_is_not_last :
  optimize_route [no_floor; floor_100] = [no_floor; floor_100]
  ∧ floor no_floor = None ∧ floor floor_100 = Some 100%Z
  ∧ optimize_route [floor_5_no_number; floor_5_room_120]
    = [floor_5_no_number; floor_5_room_120]
  ∧ room_segment (lit "archive") = Raise IndexError
  ∧ room_segment (lit "5.120") = Ok 120%Z.
Proof. split_and!; vm_compute; reflexivity. Qed.

Lemma optimize_route_sentinel_witness :
  let l := [no_floor; floor_5_no_number; floor_5_room_7] in
  optimize_route l = [floor_5_room_7; floor_5_no_number; no_floor]
  ∧ optimize_route l !! 2%nat = Some no_floor
  ∧ optimize_route l !! 1%nat = Some floor_5_no_number
  ∧ (key no_floor).1 = 99%Z
  ∧ (1 < 2)%nat.
Proof.
  intros l.
  assert (optimize_route l !! 2%nat = Some no_floor) as H2
    by (vm_compute; reflexivity).
  assert (optimize_route l !! 1%nat = Some floor_5_no_number) as H1
    by (vm_compute; reflexivity).
  split_and!; [vm_compute; reflexivity|exact H2|exact H1| |].
  - destruct (optimize_route_sentinel l 2 1 no_floor floor_5_no_number H2 H1)
      as (_ & _ & Hfloor & _).
    exact (Hfloor eq_refl).
  - destruct (optimize_route_sentinel l 2 1 no_floor floor_5_no_number H2 H1)
      as (_ & _ & _ & _ & Hlast & _).
    apply (Hlast 5%Z); [reflexivity|reflexivity|lia].
Defined.

(** C6, as stated, fails: an order code alone is no entry. *)
Lemma order_code_alone_no_entry :
  parse_delivery (lit "0835") = Ok []
  ∧ parse_delivery (lit "- 0835") = Ok []
  ∧ re_match line_re (lit "0835") = None.
Proof. split_and!; vm_compute; reflexivity. Qed.

Lemma order_code_alone_is_dropped_witness :
  (length (lit "—") ≤ 1)%nat
  ∧ Forall (λ c, dash c = true) (lit "—")
  ∧ Forall (λ c, isspace c = true) (lit " ")
  ∧ Forall (λ c, is_decimal c = true) (lit "0835")
  ∧ (3 ≤ length (lit "0835") ≤ 6)%nat
  ∧ parse_delivery (lit "— 0835") = Ok [].
Proof.
  assert (length (lit "—") ≤ 1)%nat as H1 by (vm_compute; lia).
  assert (Forall (λ c, dash c = true) (lit "—")) as H2
    by (vm_compute; repeat constructor).
  assert (Forall (λ c, isspace c = true) (lit " ")) as H3
    by (vm_compute; repeat constructor).
  assert (Forall (λ c, is_decimal c = true) (lit "0835")) as H4
    by (vm_compute; repeat constructor).
  assert (3 ≤ length (lit "0835") ≤ 6)%nat as H5 by (vm_compute; lia).
  refine (conj H1 (conj H2 (conj H3 (conj H4 (conj H5 _))))).
  exact (order_code_alone_is_dropped (lit "—") (lit " ") (lit "0835")
           H1 H2 H3 H4 H5).
Defined.

Lemma handle_text_overwrites_session_witness :
  parse_delivery (strip (lit "погудин 2397")) = Ok [pogudin]
  ∧ [pogudin] ≠ []
  ∧ ∃ r out,
      handle_text (lit "погудин 2397") interview_world
      = Done r
          (replace_session
             (Some {| deliveries := []; pending := [];
                      current := Some pogudin |}) fresh_world)
          out.
Proof.
  assert (parse_delivery (strip (lit "погудин 2397")) = Ok [pogudin]) as Hp
    by (vm_compute; reflexivity).
  assert ([pogudin] ≠ []) as Hne by discriminate.
  split_and!; [exact Hp|exact Hne|].
  destruct (handle_text_overwrites_session
              (lit "погудин 2397") [pogudin] fresh_world Hp Hne)
    as (r & out & Hw).
  exists r, out. exact (Hw (session (user_data interview_world))).
Defined.

Lemma interview_makes_surname_known_witness :
  current (the_session interview_world) = Some battalova
  ∧ Forall has_room (deliveries (the_session interview_world))
  ∧ isdigit (strip (lit "12")) = true
  ∧ int (strip (lit "12")) = Ok 12%Z
  ∧ ∃ w1 w2 r out2,
      final (got_floor (lit "12") interview_world) = w1
      ∧ got_room (lit "12.43") w1 = Done r w2 out2
      ∧ default ∅ (employees_json w2) !! lit "батталова"
        = Some (directory_record battalova 12 (lit "12.43"))
      ∧ deliveries (the_session w2) = [at_12_43].
Proof.
  assert (current (the_session interview_world) = Some battalova) as Hc
    by reflexivity.
  assert (Forall has_room (deliveries (the_session interview_world))) as Hr
    by constructor.
  assert (isdigit (strip (lit "12")) = true) as Hd by (vm_compute; reflexivity).
  assert (int (strip (lit "12")) = Ok 12%Z) as Hi by (vm_compute; reflexivity).
  split_and!; [exact Hc|exact Hr|exact Hd|exact Hi|].
  destruct (interview_makes_surname_known
              interview_world battalova (lit "12") (lit "12.43") 12 Hc Hr Hd Hi)
    as (w1 & out1 & r & w2 & out2 & _ & Hfloor & Hroom & Hdb & Hds & _).
  exists w1, w2, r, out2. split_and!.
  - by rewrite Hfloor.
  - exact Hroom.
  - rewrite Hdb. simpl. apply lookup_insert_eq.
  - rewrite Hds. reflexivity.
Defined.

End Concrete.

(** * Further properties of the code *)

(** ** The manifest parser *)

(** What [strip] and [split] do at the ends of a string. *)
Lemma lstrip_split s :
  ∃ pre, s = pre ++ lstrip s ∧ Forall (λ c, isspace c = true) pre.
Proof.
  induction s as [|c s (pre & Hs & Hpre)]; simpl; [by exists []|].
  destruct (isspace c) eqn:Hc; [|by exists []].
  exists (c :: pre). split; [by rewrite Hs at 1|by constructor].
Qed.

Lemma lstrip_head s c s' : lstrip s = c :: s' → isspace c = false.
Proof.
  induction s as [|c0 s IH]; simpl; [done|].
  destruct (isspace c0) eqn:Hc; [done|]. by intros [= <- _].
Qed.

Lemma lstrip_spaces pre s :
  Forall (λ c, isspace c = true) pre → lstrip (pre ++ s) = lstrip s.
Proof. induction 1 as [|c pre Hc _ IH]; simpl; [done|]. by rewrite Hc. Qed.

Lemma lstrip_id s : (∀ c s', s = c :: s' → isspace c = false) → lstrip s = s.
Proof. destruct s as [|c s]; simpl; [done|]. intros H. by rewrite (H c s). Qed.

Lemma lstrip_lstrip s : lstrip (lstrip s) = lstrip s.
Proof. apply lstrip_id. intros c s'. apply lstrip_head. Qed.

(** [strip s] is [s] without the whitespace at its two ends. *)
Lemma strip_split s :
  ∃ pre post, s = pre ++ strip s ++ post
              ∧ Forall (λ c, isspace c = true) pre
              ∧ Forall (λ c, isspace c = true) post.
Proof.
  destruct (lstrip_split s) as (pre & Hs & Hpre).
  destruct (lstrip_split (reverse (lstrip s))) as (post & Hr & Hpost).
  exists pre, (reverse post). split_and!; [|done|by apply Forall_reverse].
  rewrite Hs at 1. f_equal. unfold strip.
  rewrite <-reverse_app, <-Hr. by rewrite reverse_involutive.
Qed.

Lemma strip_strip s : strip (strip s) = strip s.
Proof.
  unfold strip at 1.
  assert (lstrip (strip s) = strip s) as ->.
  { apply lstrip_id. intros c s' Hc.
    destruct (lstrip_split (reverse (lstrip s))) as (post & Hr & Hpost).
    unfold strip in Hc.
    apply (f_equal reverse) in Hr. rewrite reverse_involutive, reverse_app in Hr.
    rewrite Hc in Hr. simpl in Hr. by apply (lstrip_head s c _ Hr). }
  unfold strip. by rewrite reverse_involutive, lstrip_lstrip.
Qed.

(** Whitespace at an end of a string does not change what [strip] returns. *)
Lemma strip_spaces_l pre s :
  Forall (λ c, isspace c = true) pre → strip (pre ++ s) = strip s.
Proof. intros Hpre. unfold strip. by rewrite lstrip_spaces. Qed.

Lemma lstrip_all_spaces s : Forall (λ c, isspace c = true) s → lstrip s = [].
Proof. intros Hs. by rewrite <-(app_nil_r s), lstrip_spaces. Qed.

Lemma lstrip_app s t : lstrip s ≠ [] → lstrip (s ++ t) = lstrip s ++ t.
Proof.
  induction s as [|c s IH]; simpl; [done|].
  destruct (isspace c); [done|]. done.
Qed.

Lemma strip_spaces_r s post :
  Forall (λ c, isspace c = true) post → strip (s ++ post) = strip s.
Proof.
  intros Hpost. unfold strip.
  destruct (lstrip s) as [|c s'] eqn:Hs.
  - destruct (lstrip_split s) as (pre & Hpre & Hall). rewrite Hs, app_nil_r in Hpre.
    subst pre. rewrite (lstrip_all_spaces (s ++ post)); [done|].
    by apply Forall_app.
  - rewrite lstrip_app by (by rewrite Hs). rewrite Hs, reverse_app.
    rewrite lstrip_spaces; [done|]. by apply Forall_reverse.
Qed.

Lemma split_on_nonempty sep s : split_on sep s ≠ [].
Proof. destruct s as [|c s]; simpl; [done|]. by repeat case_match. Qed.

Lemma split_on_app sep a b :
  split_on sep (a ++ sep :: b) = split_on sep a ++ split_on sep b.
Proof.
  induction a as [|c a IH]; simpl.
  - by rewrite N.eqb_refl.
  - destruct (c =? sep); [by rewrite IH|].
    rewrite IH. pose proof (split_on_nonempty sep a).
    by destruct (split_on sep a).
Qed.

Lemma split_on_cons_other sep c t :
  (c =? sep) = false →
  ∃ w ws, split_on sep t = w :: ws ∧ split_on sep (c :: t) = (c :: w) :: ws.
Proof.
  intros Hc. simpl. rewrite Hc.
  pose proof (split_on_nonempty sep t).
  destruct (split_on sep t) as [|w ws] eqn:Ht; [done|by eexists _, _].
Qed.

Lemma split_on_snoc_other sep c t :
  (c =? sep) = false →
  ∃ init last, split_on sep t = init ++ [last]
               ∧ split_on sep (t ++ [c]) = init ++ [last ++ [c]].
Proof.
  intros Hc. induction t as [|c' t (init & last & Ht & Htc)]; simpl.
  - rewrite Hc. by exists [], [].
  - rewrite Ht, Htc. destruct (c' =? sep).
    + by exists ([] :: init), last.
    + destruct init as [|w init]; simpl.
      * by exists [], (c' :: last).
      * by exists ((c' :: w) :: init), last.
Qed.

Lemma split_on_snoc_sep sep t :
  split_on sep (t ++ [sep]) = split_on sep t ++ [[]].
Proof. by rewrite split_on_app. Qed.

Section ParserMore.
Context {U : Unicode}.

(** A repetition also respects its upper bound. *)
Lemma rep_bounded {R} cls lazy lo hi pos s (k : nat → list N → option R) r :
  rep cls lazy lo hi pos s k = Some r →
  ∃ n, (lo ≤ n ≤ length s)%nat ∧ (∀ h, hi = Some h → (n ≤ h)%nat)
       ∧ Forall (λ c, cls c = true) (take n s)
       ∧ k (pos + n)%nat (drop n s) = Some r.
Proof.
  revert lo hi pos. induction s as [|c s IH]; intros lo hi pos; simpl.
  - destruct lo; [|done]. intros Hk. exists 0%nat.
    rewrite Nat.add_0_r. split_and!; [lia|lia|intros; lia|constructor|done].
  - assert (match lo with O => k pos (c :: s) | S _ => None end = Some r →
            ∃ n, (lo ≤ n ≤ S (length s))%nat
                 ∧ (∀ h, hi = Some h → (n ≤ h)%nat)
                 ∧ Forall (λ c, cls c = true) (take n (c :: s))
                 ∧ k (pos + n)%nat (drop n (c :: s)) = Some r) as Hstop.
    { destruct lo; [|done]. intros Hk. exists 0%nat.
      rewrite Nat.add_0_r. split_and!; [lia|lia|intros; lia|constructor|done]. }
    destruct (cls c) eqn:Hc; simpl; [|done].
    destruct (may_take hi) eqn:Hhi; [|done].
    assert (rep cls lazy (pred lo) (pred <$> hi) (S pos) s k = Some r →
            ∃ n, (lo ≤ n ≤ S (length s))%nat
                 ∧ (∀ h, hi = Some h → (n ≤ h)%nat)
                 ∧ Forall (λ c, cls c = true) (take n (c :: s))
                 ∧ k (pos + n)%nat (drop n (c :: s)) = Some r) as Hmore.
    { intros (n & Hn & Hh & Hall & Hk)%IH. exists (S n). simpl.
      rewrite Nat.add_succ_r. split_and!; [lia|lia| |by constructor|done].
      intros h ->. destruct h as [|h]; [done|].
      specialize (Hh h eq_refl). lia. }
    unfold or_else. destruct lazy.
    + destruct (match lo with O => k pos (c :: s) | S _ => None end) eqn:Hs;
        [exact Hstop|exact Hmore].
    + destruct (rep cls false (pred lo) (pred <$> hi) (S pos) s k) eqn:Hm;
        [exact Hmore|exact Hstop].
Qed.

(** What the two groups of a matched line are. *)
Lemma line_re_groups_shape line m :
  re_match line_re line = Some m →
  ∃ c g1 g2,
    m !! 1%nat = Some (c :: g1) ∧ m !! 2%nat = Some g2
    ∧ name_start c = true ∧ Forall (λ c, name_char c = true) g1
    ∧ (3 ≤ length g2 ≤ 6)%nat ∧ Forall (λ c, is_decimal c = true) g2.
Proof.
  unfold re_match, line_re. simpl.
  intros (n1 & Hn1 & Hh1 & Hall1 & H)%rep_bounded.
  apply rep_bounded in H as (n2 & Hn2 & _ & Hall2 & H).
  apply rep_bounded in H as (n3 & _ & _ & _ & H).
  apply rep_bounded in H as (n4 & _ & _ & _ & H).
  apply rep_bounded in H as (n5 & _ & _ & _ & H).
  apply rep_bounded in H as (n6 & Hn6 & Hh6 & Hall6 & H).
  apply rep_bounded in H as (n7 & _ & _ & _ & H).
  specialize (Hh1 1%nat eq_refl). specialize (Hh6 6%nat eq_refl).
  assert (n1 = 1%nat) as -> by lia.
  destruct line as [|c line]; [simpl in Hn1; lia|].
  simpl in Hall1. apply Forall_cons in Hall1 as [Hc _].
  simpl in Hall2, Hn2.
  set (rest := drop n5 _) in *.
  assert (m = <[2%nat:=take n6 rest]>
                (<[1%nat:=c :: take n2 line]> ∅)) as ->.
  { replace (0 + 1 + n2 + n3 + n4 + n5 + n6 - (0 + 1 + n2 + n3 + n4 + n5))%nat
      with n6 in H by lia.
    replace (0 + 1 + n2 - 0)%nat with (S n2) in H by lia. simpl in H.
    repeat case_match; by simplify_eq. }
  exists c, (take n2 line), (take n6 rest).
  rewrite lookup_insert_ne, !lookup_insert_eq by done.
  split_and!; [done..| | |done].
  - rewrite length_take. lia.
  - rewrite length_take. lia.
Qed.

Lemma parse_lines_app l1 l2 r1 r2 :
  parse_lines l1 = Ok r1 → parse_lines l2 = Ok r2 →
  parse_lines (l1 ++ l2) = Ok (r1 ++ r2).
Proof.
  revert r1. induction l1 as [|line l1 IH]; intros r1; simpl.
  - by intros [= <-].
  - destruct (strip line); [by apply IH|].
    destruct (re_match line_re _); [|by apply IH].
    destruct (group_strip _ 1) as [raw_name|]; simpl; [|done].
    destruct (group_strip _ 2) as [order|]; simpl; [|done].
    destruct (index _ 0) as [first|]; simpl; [|done].
    destruct (parse_lines l1) as [results|] eqn:Hl1; simpl; [|done].
    intros [= <-] H2. by rewrite (IH results eq_refl H2).
Qed.

Lemma parse_lines_same_strip line line' lines :
  strip line = strip line' →
  parse_lines (line :: lines) = parse_lines (line' :: lines).
Proof. simpl. by intros ->. Qed.

Lemma parse_lines_blank line lines :
  strip line = [] → parse_lines (line :: lines) = parse_lines lines.
Proof. simpl. by intros ->. Qed.

Lemma parse_split_space_l c t :
  isspace c = true →
  parse_lines (split_on LF (c :: t)) = parse_lines (split_on LF t).
Proof.
  intros Hc. destruct (c =? LF) eqn:Hlf.
  - simpl. rewrite Hlf. done.
  - destruct (split_on_cons_other LF c t Hlf) as (w & ws & -> & ->).
    apply parse_lines_same_strip.
    apply (strip_spaces_l [c]). by constructor.
Qed.

Lemma parse_split_space_r c t :
  isspace c = true →
  parse_lines (split_on LF (t ++ [c])) = parse_lines (split_on LF t).
Proof.
  intros Hc. destruct (c =? LF) eqn:Hlf.
  - apply N.eqb_eq in Hlf as ->. rewrite split_on_snoc_sep.
    destruct (parse_lines_total (split_on LF t)) as [r Hr].
    rewrite (parse_lines_app _ [[]] r []), ?app_nil_r; done.
  - destruct (split_on_snoc_other LF c t Hlf) as (init & last & -> & ->).
    destruct (parse_lines_total init) as [r1 H1].
    destruct (parse_lines_total [last]) as [r2 H2].
    rewrite (parse_lines_app init [last] r1 r2 H1 H2).
    apply parse_lines_app; [done|]. rewrite <-H2.
    apply parse_lines_same_strip, strip_spaces_r. by constructor.
Qed.

Lemma parse_split_spaces pre t post :
  Forall (λ c, isspace c = true) pre → Forall (λ c, isspace c = true) post →
  parse_lines (split_on LF (pre ++ t ++ post)) = parse_lines (split_on LF t).
Proof.
  intros Hpre Hpost. induction Hpre as [|c pre Hc _ IH].
  - simpl. induction post as [|c post IH] using rev_ind; [by rewrite app_nil_r|].
    apply Forall_app in Hpost as [Hpost [Hc _]%Forall_cons].
    rewrite app_assoc, parse_split_space_r by done. by apply IH.
  - rewrite <-app_comm_cons. by rewrite parse_split_space_l.
Qed.

(** The outer [strip] of [parse_delivery] changes nothing: every line is
    stripped again and blank lines are skipped. *)
Lemma parse_delivery_lines text :
  parse_delivery text = parse_lines (split_on LF text).
Proof.
  unfold parse_delivery.
  destruct (strip_split text) as (pre & post & Ht & Hpre & Hpost).
  rewrite Ht at 2. by rewrite parse_split_spaces.
Qed.

Lemma parse_lines_well_formed lines :
  ∃ parsed, parse_lines lines = Ok parsed ∧ Forall well_formed parsed.
Proof.
  induction lines as [|line lines (parsed & IH & Hall)]; simpl; [by eexists|].
  destruct (strip line) as [|c0 s0]; [by eexists|].
  destruct (re_match line_re (c0 :: s0)) as [m|] eqn:Hm; [|by eexists].
  apply line_re_groups_shape in Hm
    as (c & g1 & g2 & H1 & H2 & Hc & Hg1 & Hlen & Hg2).
  pose proof (letter_not_space c Hc) as Hns.
  unfold group_strip. rewrite H1, H2. simpl.
  destruct (strip_head c g1 Hns) as [s' Hs'].
  destruct (split_ws_head c s' Hns) as (w & ws & Hw).
  rewrite Hs', Hw, IH. simpl. eexists. split; [done|].
  constructor; [|done]. split_and!; [| |done..].
  - unfold grammar_name. cbn [name surname]. split_and!.
    + by exists c, s'.
    + rewrite <-Hs'. apply Forall_forall. intros x Hx%strip_elem.
      apply elem_of_cons in Hx as [->|Hx].
      * unfold name_char. by rewrite Hc.
      * rewrite Forall_forall in Hg1. by apply Hg1.
    + rewrite <-Hs'. apply strip_strip.
    + by exists w, ws.
  - by exists g2.
Qed.

(** X1: [parse_delivery] never raises, and every entry it returns is well
    formed: its name starts with a letter, has letters, whitespace and
    hyphens only and is stripped; its surname is the first token of the
    name in lower case; its order code is three to six decimal digits; it
    has no floor and no room yet. *)
Theorem parse_delivery_well_formed (text : list N) :
  ∃ parsed, parse_delivery text = Ok parsed ∧ Forall well_formed parsed.
Proof. apply parse_lines_well_formed. Qed.

(** X2: the parser works line by line and keeps the order of the lines:
    the entries of two texts joined by a line feed are the entries of
    the first followed by the entries of the second, duplicates
    included. *)
Theorem parse_delivery_concat (a b : list N) :
  ∃ ra rb, parse_delivery a = Ok ra ∧ parse_delivery b = Ok rb
           ∧ parse_delivery (a ++ LF :: b) = Ok (ra ++ rb).
Proof.
  destruct (parse_delivery_total a) as [ra Ha].
  destruct (parse_delivery_total b) as [rb Hb].
  exists ra, rb. split_and!; [done..|].
  rewrite parse_delivery_lines in *. rewrite split_on_app.
  by apply parse_lines_app.
Qed.

(** X3: whitespace and blank lines around a manifest do not change what
    is parsed from it. *)
Theorem parse_delivery_outer_whitespace (pre text post : list N) :
  Forall (λ c, isspace c = true) pre →
  Forall (λ c, isspace c = true) post →
  parse_delivery (pre ++ text ++ post) = parse_delivery text.
Proof.
  intros Hpre Hpost. rewrite !parse_delivery_lines.
  by apply parse_split_spaces.
Qed.

End ParserMore.

(** ** The route text *)

Section RouteText.
Context {U : Unicode}.

Lemma route_items_raises i cf l :
  match route_items i cf l with
  | Ok _ => Forall has_room l
  | Raise e => e = KeyError ∧ Exists (λ d, room d = None) l
  end.
Proof.
  revert i cf. induction l as [|d l IH]; intros i cf; simpl; [done|].
  destruct (room d) as [r|] eqn:Hr; [|by split; [|left]].
  specialize (IH (S i) (Some (floor d))).
  destruct (route_items _ _ l); simpl.
  - constructor; [by eexists|done].
  - destruct IH. split; [done|by right].
Qed.

Lemma format_route_match (l : list entry) :
  match format_route l with
  | Ok _ => Forall has_room l
  | Raise e => e = KeyError ∧ Exists (λ d, room d = None) l
  end.
Proof.
  unfold format_route. destruct l as [|d l]; [done|].
  pose proof (route_items_raises 1 None (d :: l)).
  by destruct (route_items _ _ _).
Qed.

(** X4: [format_route] returns a text exactly when every delivery has a
    room; otherwise it raises [KeyError], and nothing else. *)
Theorem format_route_raises (l : list entry) :
  ((∃ text, format_route l = Ok text) ↔ Forall has_room l)
  ∧ (∀ e, format_route l = Raise e →
          e = KeyError ∧ Exists (λ d, room d = None) l).
Proof.
  pose proof (format_route_match l) as H.
  destruct (format_route l) as [text|e]; split.
  - split; [done|by eexists].
  - done.
  - destruct H as [_ H]. split; [by intros [? ?]|].
    intros Hall. apply Exists_exists in H as (d & Hd & Hr).
    rewrite Forall_forall in Hall. destruct (Hall d Hd) as [r Hr']. congruence.
  - by intros e' [= <-].
Qed.

Lemma listed_app a b : listed (a ++ b) = listed a ++ listed b.
Proof. apply omap_app. Qed.

Lemma route_items_listed i cf l lines :
  route_items i cf l = Ok lines →
  listed lines
  = imap (λ j d, ((i + j)%nat, name d, default [] (room d), order d)) l.
Proof.
  revert i cf lines. induction l as [|d l IH]; intros i cf lines; simpl.
  - by intros [= <-].
  - destruct (room d) as [r|]; [|done].
    destruct (route_items (S i) _ l) as [lines'|] eqn:Hl; simpl; [|done].
    intros [= <-]. rewrite listed_app.
    assert (listed (if decide (Some (floor d) = cf) then []
                    else match cf with
                         | Some _ => [line_blank; line_floor (floor d)]
                         | None => [line_floor (floor d)]
                         end) = []) as ->.
    { by repeat case_match. }
    simpl. rewrite Nat.add_0_r. f_equal.
    rewrite (IH _ _ _ Hl). apply imap_ext. intros j x _. simpl.
    f_equal. f_equal. f_equal. lia.
Qed.

Lemma route_items_banners i cf l lines :
  route_items i cf l = Ok lines → banners lines = run_starts cf (floor <$> l).
Proof.
  revert i cf lines. induction l as [|d l IH]; intros i cf lines; csimpl.
  - by intros [= <-].
  - destruct (room d) as [r|]; [|done].
    destruct (route_items (S i) _ l) as [lines'|] eqn:Hl; csimpl; [|done].
    intros [= <-]. rewrite <-(IH _ _ _ Hl). unfold banners.
    rewrite omap_app. f_equal. by repeat case_match.
Qed.

Lemma floor_le_antisym a b : floor_le a b → floor_le b a → a = b.
Proof. destruct a, b; simpl; try done. intros. f_equal. lia. Qed.

Lemma run_starts_elem cf fl x : x ∈ run_starts cf fl → x ∈ fl.
Proof.
  revert cf. induction fl as [|f fl IH]; intros cf; simpl; [done|].
  intros [Hx|Hx]%elem_of_app.
  - case_decide; [by apply elem_of_nil in Hx|].
    apply list_elem_of_singleton in Hx as ->. by left.
  - right. eauto.
Qed.

Lemma run_starts_all cf fl x :
  x ∈ fl → x ∈ run_starts cf fl ∨ cf = Some x.
Proof.
  revert cf. induction fl as [|f fl IH]; intros cf; simpl.
  - by intros ?%elem_of_nil.
  - intros [->|Hx]%elem_of_cons.
    + case_decide; [by right|]. left. by left.
    + destruct (IH (Some f) Hx) as [Hin|[= ->]].
      * left. apply elem_of_app. by right.
      * case_decide; [by right|]. left. by left.
Qed.

Lemma run_starts_not_previous f fl :
  StronglySorted floor_le (f :: fl) → f ∉ run_starts (Some f) fl.
Proof.
  intros Hs. apply StronglySorted_inv in Hs as [Hs Hf].
  induction Hs as [|y fl Hs IH Hy]; simpl; [by intros ?%elem_of_nil|].
  apply Forall_cons in Hf as [Hfy Hf].
  case_decide as Hyf.
  - injection Hyf as ->. simpl. by apply IH.
  - intros [->%list_elem_of_singleton|Hin%run_starts_elem]%elem_of_app; [done|].
    rewrite Forall_forall in Hy, Hf.
    destruct Hyf. f_equal. apply floor_le_antisym; [by apply Hy|done].
Qed.

Lemma run_starts_NoDup cf fl :
  StronglySorted floor_le fl → NoDup (run_starts cf fl).
Proof.
  intros Hs. revert cf. induction Hs as [|f fl Hs IH Hf]; intros cf; simpl.
  - constructor.
  - case_decide; simpl; [done|]. constructor; [|done].
    apply run_starts_not_previous. by constructor.
Qed.

Lemma optimize_route_floors l :
  Forall has_floor l →
  StronglySorted floor_le (floor <$> optimize_route l).
Proof.
  intros Hl.
  assert (Forall has_floor (optimize_route l)) as Hl'
    by (by rewrite optimize_route_perm).
  pose proof (sorted_StronglySorted tuple_lt key tuple_lt_asym tuple_le_trans l)
    as Hs. fold (optimize_route l) in Hs.
  induction Hs as [|d l' Hs IH Hd]; csimpl; [constructor|].
  apply Forall_cons in Hl' as [[x Hx] Hl'].
  constructor; [by apply IH|].
  rewrite Forall_forall in Hd, Hl'. apply Forall_fmap, Forall_forall.
  intros d' Hd'. simpl.
  destruct (Hl' d' Hd') as [y Hy]. specialize (Hd d' Hd').
  apply tuple_lt_false in Hd. unfold key in Hd. rewrite Hx, Hy in *.
  simpl in *. lia.
Qed.

(** X5: the items of a route text are the deliveries in the order given,
    numbered from 1, each with its name, room and order. *)
Theorem format_route_numbering (l : list entry) (text : list route_line) :
  format_route l = Ok text →
  listed text = imap (λ j d, (S j, name d, default [] (room d), order d)) l.
Proof.
  unfold format_route. destruct l as [|d l]; [by intros [= <-]|].
  destruct (route_items 1 None (d :: l)) as [lines|] eqn:Hl; [|done].
  simpl. intros [= <-]. change (line_title :: ?x) with ([line_title] ++ x).
  rewrite !listed_app. simpl. rewrite app_nil_r.
  by rewrite (route_items_listed _ _ _ _ Hl).
Qed.

Lemma banners_format_route l text :
  format_route l = Ok text → banners text = run_starts None (floor <$> l).
Proof.
  unfold format_route. destruct l as [|d l]; [by intros [= <-]|].
  destruct (route_items 1 None (d :: l)) as [lines|] eqn:Hl; [|done].
  simpl. intros [= <-]. unfold banners.
  change (line_title :: ?x) with ([line_title] ++ x).
  rewrite !omap_app. simpl. rewrite app_nil_r.
  apply (route_items_banners _ _ _ _ Hl).
Qed.

(** X6: in the text of an optimized route whose deliveries all have a
    floor, every floor has one banner: no floor is announced twice, the
    banners are the floors of the deliveries, and their number is the
    number of floors the last line gives. *)
Theorem format_route_banners (l : list entry) (text : list route_line) :
  Forall has_floor l →
  format_route (optimize_route l) = Ok text →
  NoDup (banners text)
  ∧ (∀ f, f ∈ banners text ↔ f ∈ floor <$> l)
  ∧ length (banners text) = length (remove_dups (floor <$> l)).
Proof.
  intros Hl Ht. rewrite (banners_format_route _ _ Ht).
  pose proof (optimize_route_floors l Hl) as Hs.
  pose proof (run_starts_NoDup None _ Hs) as Hnd.
  assert (∀ f, f ∈ run_starts None (floor <$> optimize_route l)
               ↔ f ∈ floor <$> l) as Hin.
  { intros f. rewrite <-(optimize_route_perm l) at 2. split.
    - apply run_starts_elem.
    - intros Hf. by destruct (run_starts_all None _ f Hf). }
  split_and!; [done|done|].
  apply Permutation_length, NoDup_Permutation;
    [done|apply NoDup_remove_dups|].
  intros f. by rewrite Hin, elem_of_remove_dups.
Qed.

End RouteText.

(** ** Marking the button of a delivery *)

Lemma digit_char_ascii n : ascii_digit (digit_char n) = true.
Proof.
  unfold ascii_digit, digit_char, in_range.
  pose proof (Nat.mod_upper_bound n 10).
  apply andb_true_intro. split; apply N.leb_le; lia.
Qed.

Lemma digit_char_value n :
  Z.of_N (digit_char n - 48) = Z.of_nat (n mod 10).
Proof. unfold digit_char. lia. Qed.

(** The characters [str] writes for a number. *)
Lemma str_of_nat_fuel_digits fuel n acc :
  Forall (λ c, ascii_digit c = true) acc →
  Forall (λ c, ascii_digit c = true) (str_of_nat_fuel fuel n acc).
Proof.
  revert n acc. induction fuel as [|fuel IH]; intros n acc Hacc;
    cbn [str_of_nat_fuel]; [done|].
  assert (Forall (λ c, ascii_digit c = true) (digit_char n :: acc)) as Hacc'
    by (constructor; [apply digit_char_ascii|done]).
  destruct (n / 10)%nat eqn:Hq; [done|]. by apply IH.
Qed.

Lemma str_of_nat_fuel_nonempty fuel n acc :
  acc ≠ [] ∨ fuel ≠ 0%nat → str_of_nat_fuel fuel n acc ≠ [].
Proof.
  revert n acc. induction fuel as [|fuel IH]; intros n acc H;
    cbn [str_of_nat_fuel].
  - by destruct H.
  - destruct (n / 10)%nat; [done|]. apply IH. by left.
Qed.

Lemma scan_str_of_nat_fuel fuel n rest :
  (n < fuel)%nat →
  ∃ d, ∀ a k,
    scan_digits a k false (str_of_nat_fuel fuel n rest)
    = scan_digits (a * 10 ^ Z.of_nat (S d) + Z.of_nat n) (k + S d) false rest.
Proof.
  revert n rest. induction fuel as [|fuel IH]; intros n rest Hn; [lia|].
  cbn [str_of_nat_fuel].
  pose proof (Nat.div_mod_eq n 10) as Hdm.
  destruct (n / 10)%nat as [|q] eqn:Hq.
  - exists 0%nat. intros a k. cbn [scan_digits].
    rewrite digit_char_ascii, digit_char_value.
    rewrite Nat.add_1_r. f_equal. lia.
  - destruct (IH (S q) (digit_char n :: rest)) as [d Hd].
    { pose proof (Nat.mod_upper_bound n 10). lia. }
    exists (S d). intros a k. rewrite Hd. cbn [scan_digits].
    rewrite digit_char_ascii, digit_char_value.
    replace (S (k + S d)) with (k + S (S d))%nat by lia. f_equal.
    rewrite (Nat2Z.inj_succ (S d)), Z.pow_succ_r by lia.
    pose proof (Nat.mod_upper_bound n 10). lia.
Qed.

Section Keyboard.
Context {U : Unicode}.

Lemma to_ascii_digits s :
  Forall (λ c, ascii_digit c = true) s → to_ascii s = Some s.
Proof.
  induction 1 as [|c s Hc _ IH]; simpl; [done|].
  unfold ascii_digit, in_range in Hc. apply andb_prop in Hc as [_ Hc].
  apply N.leb_le in Hc. destruct (N.ltb_spec c 127); [|lia].
  by rewrite IH.
Qed.

Lemma parse_long_digit c s :
  ascii_digit c = true →
  parse_long (c :: s)
  = match scan_digits 0 0 false (c :: s) with
    | Some (v, S _, rest) =>
        match lstrip_c rest with
        | [] => Some v
        | _ => None
        end
    | _ => None
    end.
Proof.
  intros Hc. unfold ascii_digit, in_range in Hc.
  apply andb_prop in Hc as [Hlo Hhi]. apply N.leb_le in Hlo, Hhi.
  assert (c = 48 ∨ c = 49 ∨ c = 50 ∨ c = 51 ∨ c = 52 ∨ c = 53 ∨ c = 54
          ∨ c = 55 ∨ c = 56 ∨ c = 57) as Hcases by lia.
  unfold parse_long.
  repeat (destruct Hcases as [->|Hcases]; [simpl lstrip_c; cbv iota beta;
    destruct (scan_digits _ _ _ _) as [[[v [|n]] rest]|]; try done;
    destruct (lstrip_c rest); try done; f_equal; lia|]).
  subst c. simpl lstrip_c; cbv iota beta.
  destruct (scan_digits _ _ _ _) as [[[v [|n]] rest]|]; try done;
    destruct (lstrip_c rest); try done; f_equal; lia.
Qed.

(** [int(str(n))] is [n]. *)
Lemma int_str_of_nat n : int (str_of_nat n) = Ok (Z.of_nat n).
Proof.
  unfold int, str_of_nat.
  pose proof (str_of_nat_fuel_digits (S n) n [] ltac:(constructor)) as Hd.
  pose proof (str_of_nat_fuel_nonempty (S n) n [] ltac:(by right)) as Hne.
  destruct (scan_str_of_nat_fuel (S n) n [] ltac:(lia)) as [d Hs].
  rewrite (to_ascii_digits _ Hd).
  destruct (str_of_nat_fuel (S n) n []) as [|c s] eqn:Hstr; [done|].
  apply Forall_cons in Hd as [Hc _].
  change (Some (c :: s) ≫= parse_long) with (parse_long (c :: s)).
  rewrite (parse_long_digit _ _ Hc), Hs. simpl. do 2 f_equal.
Qed.

Lemma route_buttons_rooms i l kb :
  route_buttons i l = Ok kb → Forall has_room l.
Proof.
  revert i kb. induction l as [|d l IH]; intros i kb; simpl; [done|].
  destruct (room d) as [r|] eqn:Hr; [|done].
  destruct (route_buttons (S i) l) as [kb'|] eqn:Hkb; [|done].
  intros _. constructor; [by eexists|by eapply IH].
Qed.

Lemma route_buttons_lookup i0 l kb i j n r data :
  route_buttons i0 l = Ok kb → kb !! i = Some (mark_button j n r data) →
  ∃ d, l !! i = Some d ∧ j = S (i0 + i) ∧ n = name d ∧ room d = Some r
       ∧ data = lit "done:" ++ str_of_nat (i0 + i).
Proof.
  revert i0 kb i. induction l as [|d l IH]; intros i0 kb i; simpl.
  - intros [= <-]. by destruct i as [|[|i]].
  - destruct (room d) as [r'|] eqn:Hr; [|done].
    destruct (route_buttons (S i0) l) as [kb'|] eqn:Hkb; [|done].
    simpl. intros [= <-]. destruct i as [|i]; simpl.
    + intros [= <- <- <- <-]. exists d. rewrite Nat.add_0_r.
      split_and!; [done|lia|done..].
    + intros Hi. destruct (IH _ _ _ Hkb Hi) as (d' & ? & -> & ? & ? & ->).
      exists d'. replace (i0 + S i)%nat with (S i0 + i)%nat by lia. done.
Qed.

Lemma pop_lookup {A} (l : list A) (i : nat) x :
  l !! i = Some x → pop l (Z.of_nat i) = Ok (x, delete i l).
Proof.
  intros Hi. pose proof (lookup_lt_Some _ _ _ Hi) as Hlt.
  unfold pop. cbv zeta.
  destruct (Z.ltb_spec (Z.of_nat i) 0); [lia|].
  destruct (Z.ltb_spec (Z.of_nat i) 0); [lia|].
  destruct (Z.leb_spec (Z.of_nat (length l)) (Z.of_nat i)); [lia|].
  simpl. by rewrite Nat2Z.id, Hi.
Qed.

(** X7: pressing the button the keyboard shows at position [i] marks
    the delivery at position [i] of the route: [cb_done] returns without
    raising, that delivery alone leaves the session, the others keep
    their order, the session is emptied when it was the last one, and
    the directory is not touched. *)
Theorem cb_done_marks_pressed
    (w : world) (kb : list button) (i j : nat) (n r data : list N) :
  build_route_keyboard (deliveries (the_session w)) = Ok kb →
  kb !! i = Some (mark_button j n r data) →
  ∃ d w' out,
    deliveries (the_session w) !! i = Some d ∧ name d = n ∧ j = S i
    ∧ cb_done data w = Done () w' out
    ∧ the_session w'
      = match delete i (deliveries (the_session w)) with
        | [] => empty_session
        | ds => set_deliveries ds (the_session w)
        end
    ∧ employees_json w' = employees_json w.
Proof.
  unfold build_route_keyboard. intros Hkb Hi.
  pose proof (route_buttons_rooms _ _ _ Hkb) as Hrooms.
  destruct (route_buttons_lookup _ _ _ _ _ _ _ _ Hkb Hi)
    as (d & Hd & -> & -> & Hr & Hdata). clear Hi.
  assert (int (drop 5 data) = Ok (Z.of_nat i)) as Hint
    by (rewrite Hdata; apply int_str_of_nat).
  assert (data ≠ lit "done:clear") as Hne.
  { intros Heq. rewrite Heq in Hint. vm_compute in Hint. discriminate. }
  clear Hdata.
  pose proof (lookup_lt_Some _ _ _ Hd) as Hlt.
  pose proof (Forall_delete _ _ i Hrooms) as Hrooms'.
  destruct (reply_route_ok _ Hrooms') as (t & k & Ht & Hk & _).
  exists d. unfold cb_done. rewrite decide_False by done.
  unfold mbind, M_bind. simpl send. cbv iota beta.
  rewrite Hint. simpl. autorewrite with world.
  destruct (Z.geb_spec (Z.of_nat i)
              (Z.of_nat (length (deliveries (the_session w))))); [lia|].
  rewrite (pop_lookup _ _ _ Hd). simpl. autorewrite with world.
  rewrite Ht, Hk.
  destruct (delete i (deliveries (the_session w))) as [|d' ds'] eqn:Hdel; simpl.
  - eexists _, _. split_and!; try done.
  - eexists _, _. split_and!; try done.
Qed.

End Keyboard.

(** ** The directory handlers *)

Lemma str_lt_asym a b : str_lt a b = true → str_lt b a = false.
Proof.
  revert b. induction a as [|x a IH]; intros [|y b]; simpl; try done.
  destruct (N.ltb_spec x y), (N.ltb_spec y x), (N.eqb_spec x y),
    (N.eqb_spec y x); simpl; try done; try lia. apply IH.
Qed.

Lemma str_le_trans a b c :
  str_lt b a = false → str_lt c b = false → str_lt c a = false.
Proof.
  revert b c. induction a as [|x a IH]; intros [|y b] [|z c]; simpl; try done.
  destruct (N.ltb_spec y x), (N.ltb_spec z y), (N.ltb_spec z x),
    (N.eqb_spec y x), (N.eqb_spec z y), (N.eqb_spec z x);
    simpl; try done; try lia. apply IH.
Qed.

Lemma str_lt_total a b : str_lt a b = false → str_lt b a = false → a = b.
Proof.
  revert b. induction a as [|x a IH]; intros [|y b]; simpl; try done.
  destruct (N.ltb_spec x y), (N.ltb_spec y x), (N.eqb_spec x y),
    (N.eqb_spec y x); simpl; try done; try lia.
  intros. subst. f_equal. by apply IH.
Qed.

Lemma sorted_keys_elem db k : k ∈ sorted_keys db ↔ is_Some (db !! k).
Proof.
  unfold sorted_keys. rewrite sorted_perm.
  rewrite list_elem_of_fmap. split.
  - intros ([k' emp] & -> & Hin). apply elem_of_map_to_list in Hin. by eexists.
  - intros [emp Hk]. exists (k, emp). split; [done|].
    by apply elem_of_map_to_list.
Qed.

Lemma sorted_keys_NoDup db : NoDup (sorted_keys db).
Proof.
  unfold sorted_keys. rewrite sorted_perm. apply NoDup_fst_map_to_list.
Qed.

Lemma sorted_keys_ascending db :
  StronglySorted (λ a b, str_lt a b = true) (sorted_keys db).
Proof.
  pose proof (sorted_keys_NoDup db) as Hnd.
  pose proof (sorted_StronglySorted str_lt id str_lt_asym str_le_trans
                (map_to_list db).*1) as Hs.
  fold (sorted_keys db) in Hs. revert Hnd Hs.
  generalize (sorted_keys db). intros ks Hnd Hs.
  induction Hs as [|k ks Hs IH Hk']; [constructor|].
  apply NoDup_cons in Hnd as [Hk'' Hnd].
  constructor; [by apply IH|].
  rewrite Forall_forall in Hk'. apply Forall_forall. intros k' Hin.
  specialize (Hk' k' Hin). unfold key_le in Hk'. simpl in Hk'.
  destruct (str_lt k k') eqn:Hlt; [done|].
  destruct Hk''. by rewrite (str_lt_total k k').
Qed.

Lemma mapM_delete_button db keys :
  Forall (λ k, is_Some (db !! k)) keys →
  ∃ keyboard,
    mapM (delete_button db) keys = Ok keyboard
    ∧ Forall2 (λ k b, ∃ emp label,
                 db !! k = Some emp
                 ∧ b = employee_button label (emp_room emp) (lit "del:" ++ k)
                 ∧ ∀ n, full_name emp = Some n → label = n) keys keyboard.
Proof.
  induction 1 as [|k keys [emp Hk] _ (keyboard & IH & Hall)].
  - by eexists.
  - assert (delete_button db k
            = Ok (employee_button (default (capitalize k) (full_name emp))
                    (emp_room emp) (lit "del:" ++ k))) as Hb
      by (unfold delete_button; by rewrite Hk).
    eexists. split.
    + cbn [mapM]. rewrite Hb, IH. reflexivity.
    + constructor; [|done]. eexists emp, _. split_and!; [done..|].
      by intros n ->.
Qed.

(** X8: [/delete] on a directory with records never raises: it offers
    one button for every surname of the directory, exactly once, in
    ascending order of the surnames, each with the room of the record,
    its full name when it has one, and the data [del:] and the surname,
    and a last button to cancel. *)
Theorem cmd_delete_lists_directory (w : world) :
  let db := default ∅ (employees_json w) in
  db ≠ ∅ →
  ∃ keyboard,
    cmd_delete w
    = Ok [admin_reply_text msg_whom
            (Some (keyboard ++ [cancel_button (lit "del:cancel")]))]
    ∧ Forall2 (λ k b, ∃ emp label,
                 db !! k = Some emp
                 ∧ b = employee_button label (emp_room emp) (lit "del:" ++ k)
                 ∧ ∀ n, full_name emp = Some n → label = n)
        (sorted_keys db) keyboard
    ∧ (∀ k, k ∈ sorted_keys db ↔ is_Some (db !! k))
    ∧ StronglySorted (λ a b, str_lt a b = true) (sorted_keys db).
Proof.
  intros db Hne.
  destruct (mapM_delete_button db (sorted_keys db)) as (keyboard & Hk & Hall).
  { apply Forall_forall. intros k. apply sorted_keys_elem. }
  exists keyboard. split_and!; [|done|apply sorted_keys_elem|].
  - unfold cmd_delete. fold db. rewrite decide_False by done.
    cbv zeta. rewrite Hk. reflexivity.
  - apply sorted_keys_ascending.
Qed.

Lemma del_data_cancel surname :
  lit "del:" ++ surname = lit "del:cancel" ↔ surname = lit "cancel".
Proof.
  split; [|by intros ->].
  change (lit "del:cancel") with (lit "del:" ++ lit "cancel").
  apply app_inv_head.
Qed.

Section Directory.
Context {U : Unicode}.

Lemma cb_delete_present k emp w :
  default ∅ (employees_json w) !! k = Some emp →
  k ≠ lit "cancel" →
  cb_delete (lit "del:" ++ k) w
  = ({| user_data := user_data w;
        employees_json := Some (delete k (default ∅ (employees_json w))) |},
     [admin_answer;
      admin_edit_message_text (msg_deleted (default k (full_name emp)))]).
Proof.
  intros Hk Hne.
  unfold cb_delete. rewrite decide_False by (by rewrite del_data_cancel).
  change (drop 4 (lit "del:" ++ k)) with k. cbv zeta. by rewrite Hk.
Qed.

(** X9: the button of a surname of the directory, other than the word
    [cancel], deletes the record of that surname and no other; the
    user's data are not touched, and a manifest line of that surname is
    unknown again. *)
Theorem cb_delete_removes (k : list N) (emp : employee) (w : world) :
  default ∅ (employees_json w) !! k = Some emp →
  k ≠ lit "cancel" →
  let db := default ∅ (employees_json w) in
  let w' := (cb_delete (lit "del:" ++ k) w).1 in
  (∃ label, delete_button db k
            = Ok (employee_button label (emp_room emp) (lit "del:" ++ k)))
  ∧ cb_delete (lit "del:" ++ k) w
    = ({| user_data := user_data w; employees_json := Some (delete k db) |},
       [admin_answer;
        admin_edit_message_text (msg_deleted (default k (full_name emp)))])
  ∧ default ∅ (employees_json w') !! k = None
  ∧ (∀ k', k' ≠ k → default ∅ (employees_json w') !! k' = db !! k')
  ∧ (∀ parsed item, item ∈ parsed → surname item = k →
       item ∈ (classify (default ∅ (employees_json w')) parsed).2).
Proof.
  intros Hk Hne db w'.
  pose proof (cb_delete_present k emp w Hk Hne) as Hcb.
  subst w' db. rewrite Hcb. simpl. split_and!.
  - unfold delete_button. rewrite Hk. by eexists.
  - done.
  - apply lookup_delete_eq.
  - intros k' Hk'. by apply lookup_delete_ne.
  - intros parsed item Hin Hs. rewrite classify_unknown.
    apply list_elem_of_filter. split; [|done].
    unfold miss. rewrite Hs. apply lookup_delete_eq.
Qed.

(** X10: a record under the surname [cancel] cannot be deleted: its
    button carries the data of the cancel button, and [cb_delete]
    answers that the deletion was cancelled and leaves the directory as
    it is. *)
Theorem cb_delete_cancel_collision (emp : employee) (w : world) :
  default ∅ (employees_json w) !! lit "cancel" = Some emp →
  ∃ label room data,
    delete_button (default ∅ (employees_json w)) (lit "cancel")
    = Ok (employee_button label room data)
    ∧ data = lit "del:cancel"
    ∧ cb_delete data w
      = (w, [admin_answer; admin_edit_message_text msg_cancelled]).
Proof.
  intros Hk. eexists _, _, _. split_and!.
  - unfold delete_button. rewrite Hk. reflexivity.
  - reflexivity.
  - reflexivity.
Qed.

(** X11: a surname that an interview added to the directory is removed
    again by its delete button: the directory is the one before the
    interview, while the delivery stays in the session. *)
Theorem interview_then_delete
    (w : world) (item : entry) (f : Z) (room_text : list N) :
  current (the_session w) = Some item → floor item = Some f →
  rooms_known w →
  default ∅ (employees_json w) !! surname item = None →
  surname item ≠ lit "cancel" →
  ∃ r w1 out,
    got_room room_text w = Done r w1 out
    ∧ default ∅ (employees_json w1) !! surname item
      = Some (directory_record item f (strip room_text))
    ∧ let w2 := (cb_delete (lit "del:" ++ surname item) w1).1 in
      employees_json w2 = Some (default ∅ (employees_json w))
      ∧ the_session w2 = the_session w1
      ∧ resolved item f (strip room_text) ∈ deliveries (the_session w2).
Proof.
  intros Hc Hf Hrooms Hnew Hne.
  destruct (got_room_ok room_text f item w Hc Hf Hrooms) as [out Hgot].
  cbv zeta in Hgot. eexists _, _, out. split; [exact Hgot|].
  set (w1 := Build_world _ _).
  assert (default ∅ (employees_json w1) !! surname item
          = Some (directory_record item f (strip room_text))) as Hk
    by apply lookup_insert_eq.
  split; [done|].
  rewrite (cb_delete_present (surname item) _ w1 Hk Hne). simpl.
  split_and!.
  - f_equal. by apply delete_insert_id.
  - done.
  - unfold the_session. simpl.
    destruct (pending _); simpl.
    + rewrite optimize_route_perm. apply elem_of_app. right. by left.
    + apply elem_of_app. right. by left.
Qed.

End Directory.

(** ** What the handlers leave alone

    A relation between the world a handler starts in and the world it
    leaves is established for a handler from its steps. *)

Section Frame.
Context (R : world → world → Prop) `{!Reflexive R, !Transitive R}.

Definition preserves {A} (m : M A) : Prop := ∀ w, R w (final (m w)).

Lemma preserves_bind {A B} (m : M A) (f : A → M B) :
  preserves m → (∀ a, preserves (f a)) → preserves (m ≫= f).
Proof.
  intros Hm Hf w. specialize (Hm w). unfold mbind, M_bind.
  destruct (m w) as [a w1 out|e w1 out]; simpl in *; [|done].
  specialize (Hf a w1). destruct (f a w1); simpl in *; by etrans.
Qed.

Lemma preserves_ret {A} (a : A) : preserves (mret a).
Proof. intros w. simpl. reflexivity. Qed.

Lemma preserves_raise {A} e : preserves (raise (A := A) e).
Proof. intros w. simpl. reflexivity. Qed.

Lemma preserves_lift {A} (r : result A) : preserves (lift r).
Proof. destruct r; [apply preserves_ret|apply preserves_raise]. Qed.

Lemma preserves_send s : preserves (send s).
Proof. intros w. simpl. reflexivity. Qed.

Lemma preserves_gets {A} (f : world → A) : preserves (gets f).
Proof. intros w. simpl. reflexivity. Qed.

Lemma preserves_modify f : (∀ w, R w (f w)) → preserves (modify f).
Proof. intros Hf w. apply Hf. Qed.

End Frame.

#[local] Instance same_directory_refl : Reflexive same_directory.
Proof. by intros w. Qed.
#[local] Instance same_directory_trans : Transitive same_directory.
Proof. unfold same_directory. intros w1 w2 w3 H1 H2. congruence. Qed.
#[local] Instance same_manual_refl : Reflexive same_manual.
Proof. by intros w. Qed.
#[local] Instance same_manual_trans : Transitive same_manual.
Proof. unfold same_manual. intros w1 w2 w3 [? ?] [? ?]. split; congruence. Qed.

(** A handler made of steps that keep [R]. *)
Ltac frame_steps :=
  repeat first
    [ apply preserves_bind; [apply _| |intros ?]
    | by apply preserves_ret | by apply preserves_raise
    | by apply preserves_lift | by apply preserves_send
    | by apply preserves_gets | by apply preserves_modify
    | match goal with
      | |- preserves _ (match ?x with _ => _ end) => destruct x
      | |- preserves _ (if ?x then _ else _) => destruct x
      | |- preserves _ (let '(_, _) := ?x in _) => destruct x
      end ].

Section FrameHandlers.
Context {U : Unicode}.

Section Session.
Context (R : world → world → Prop) `{!Reflexive R, !Transitive R}.
Hypothesis session_only : ∀ s w, R w (set_user_data (set_session s) w).

Lemma preserves_write f : preserves R (write f).
Proof. by apply preserves_modify. Qed.

Lemma preserves_read {A} (field : session_t → A) : preserves R (read field).
Proof. by apply preserves_gets. Qed.

Lemma preserves_get_session : preserves R get_session.
Proof. by apply preserves_modify. Qed.

Lemma preserves_clear_session : preserves R clear_session.
Proof. by apply preserves_modify. Qed.

Lemma preserves_reply_route route : preserves R (reply_route route).
Proof. unfold reply_route. frame_steps. Qed.

Lemma preserves_cmd_clear : preserves R cmd_clear.
Proof.
  unfold cmd_clear. frame_steps.
Qed.

Lemma preserves_cb_done data : preserves R (cb_done data).
Proof.
  unfold cb_done. frame_steps.
Qed.

Lemma preserves_handle_text text : preserves R (handle_text text).
Proof.
  unfold handle_text. frame_steps; auto using preserves_reply_route.
Qed.

Lemma preserves_got_floor text : preserves R (got_floor text).
Proof. unfold got_floor. frame_steps. Qed.

Lemma preserves_cmd_add :
  (∀ w, R w (set_user_data set_manual_add w)) → preserves R cmd_add.
Proof. intros ?. unfold cmd_add. frame_steps. Qed.

Hypothesis file_only :
  ∀ d w, R w {| user_data := user_data w; employees_json := Some d |}.

Lemma preserves_got_room text : preserves R (got_room text).
Proof.
  unfold got_room, save_db. frame_steps; auto using preserves_reply_route.
Qed.

End Session.

Lemma same_manual_session s w : same_manual w (set_user_data (set_session s) w).
Proof. done. Qed.

Lemma same_manual_file d w :
  same_manual w {| user_data := user_data w; employees_json := Some d |}.
Proof. done. Qed.

Lemma same_directory_session s w :
  same_directory w (set_user_data (set_session s) w).
Proof. done. Qed.

Lemma candidates_wired st u :
  Forall (λ h, h ≠ call_got_floor_manual) (candidates st u).
Proof.
  unfold candidates, matching.
  destruct st as [[| |]|], u as [text|n]; simpl;
    repeat case_bool_decide; simpl; repeat constructor; done.
Qed.

Ltac same_manual_side :=
  first [apply _ | apply same_manual_session | apply same_manual_file | done].

Lemma call_manual h u :
  h ≠ call_got_floor_manual → preserves same_manual (call h u).
Proof.
  intros Hh. destruct h; cbn [call]; [| | | | |done].
  - apply preserves_handle_text; same_manual_side.
  - apply preserves_cmd_add; same_manual_side.
  - apply preserves_got_floor; same_manual_side.
  - apply preserves_got_room; same_manual_side.
  - apply preserves_cmd_clear; same_manual_side.
Qed.

Lemma final_settle st (o : outcome (option conv)) : (settle st o).2 = final o.
Proof. by destruct o. Qed.

Lemma conversation_manual c u c' :
  c' ∈ conversation c u → same_manual c.2 c'.2.
Proof.
  unfold conversation. pose proof (candidates_wired c.1 u) as Hw.
  destruct (candidates c.1 u) as [|h hs]; [by intros ->%list_elem_of_singleton|].
  intros (h' & -> & Hin)%list_elem_of_fmap. rewrite final_settle.
  apply call_manual. by eapply Forall_forall in Hw.
Qed.

Lemma bot_step_manual c e c' : c' ∈ bot_step c e → same_manual c.2 c'.2.
Proof.
  destruct e as [[text|n]|data]; cbn [bot_step].
  - apply conversation_manual.
  - destruct (_ || _); [by intros ->%list_elem_of_singleton|].
    case_bool_decide; [|apply conversation_manual].
    intros ->%list_elem_of_singleton. rewrite final_settle.
    apply (preserves_cmd_clear same_manual); same_manual_side.
  - destruct (starts_with _ data).
    { intros ->%list_elem_of_singleton. cbn [snd]. unfold cb_delete.
      case_decide; [done|]. cbv zeta. by destruct (_ !! _). }
    destruct (starts_with _ data); intros ->%list_elem_of_singleton; [|done].
    cbn [snd]. apply (preserves_cb_done same_manual); same_manual_side.
Qed.

(** X12: the manual flow records nothing.  In every run of the bot,
    whatever is sent, the keys [manual_name] and [manual_floor] of the
    user's data stay as they were: the one handler that assigns them is
    never called. *)
Theorem manual_flow_never_records
    (es : list event) (c c' : option conv * world) :
  c' ∈ bot_runs c es →
  manual_name (user_data c'.2) = manual_name (user_data c.2)
  ∧ manual_floor (user_data c'.2) = manual_floor (user_data c.2).
Proof.
  revert c. induction es as [|e es IH]; intros c; simpl.
  - by intros ->%list_elem_of_singleton.
  - intros (c1 & Hin & Hc1)%list_elem_of_bind.
    destruct (IH _ Hin) as [-> ->]. by apply bot_step_manual in Hc1.
Qed.

Lemma reply_route_final route w : final (reply_route route w) = w.
Proof.
  unfold reply_route, mbind, M_bind.
  destruct (format_route route); simpl; [|done].
  destruct (build_route_keyboard route); simpl; done.
Qed.

Lemma got_room_directory text w :
  match current (the_session w) with
  | Some item =>
      match floor item with
      | Some f =>
          employees_json (final (got_room text w))
          = Some (<[surname item := directory_record item f (strip text)]>
                    (default ∅ (employees_json w)))
      | None => same_directory w (final (got_room text w))
      end
  | None => same_directory w (final (got_room text w))
  end.
Proof.
  unfold same_directory.
  destruct (current (the_session w)) as [item|] eqn:Hc.
  - destruct (floor item) as [f|] eqn:Hf.
    + unfold got_room, mbind, M_bind. simpl. autorewrite with world.
      rewrite Hc. simpl. rewrite Hf. simpl. autorewrite with world. simpl.
      destruct (pending (the_session w)) as [|next_item rest]; simpl; [|done].
      match goal with
      | |- context [reply_route ?r ?w'] =>
          pose proof (reply_route_final r w') as Hr;
          destruct (reply_route r w'); simpl in *; by subst
      end.
    + unfold got_room, mbind, M_bind. simpl. autorewrite with world.
      rewrite Hc. simpl. rewrite Hf. simpl. done.
  - unfold got_room, mbind, M_bind. simpl. autorewrite with world.
    rewrite Hc. simpl. done.
Qed.

Lemma starts_with_split p data :
  starts_with p data = true → data = p ++ drop (length p) data.
Proof.
  unfold starts_with. intros Hp%bool_decide_eq_true.
  by rewrite <-Hp at 1; rewrite take_drop.
Qed.

Ltac same_directory_side :=
  first [apply _ | apply same_directory_session | done].

Lemma call_directory h u :
  h ≠ call_got_room → h ≠ call_got_floor_manual →
  preserves same_directory (call h u).
Proof.
  intros Hr Hm. destruct h; cbn [call]; [| | |done| |done].
  - apply preserves_handle_text; same_directory_side.
  - apply preserves_cmd_add; same_directory_side.
  - apply preserves_got_floor; same_directory_side.
  - apply preserves_cmd_clear; same_directory_side.
Qed.

Lemma candidates_got_room st u :
  call_got_room ∈ candidates st u →
  st = Some ASK_ROOM ∧ ∃ text, u = text_message text.
Proof.
  unfold candidates, matching.
  destruct st as [[| |]|], u as [text|n]; simpl;
    repeat case_bool_decide; simpl; try not_listed; eauto.
Qed.

Lemma conversation_directory c u c' :
  c' ∈ conversation c u → directory_step c (message_update u) (employees_json c'.2).
Proof.
  unfold conversation. pose proof (candidates_wired c.1 u) as Hw.
  pose proof (candidates_got_room c.1 u) as Hroom.
  destruct (candidates c.1 u) as [|h hs];
    [intros ->%list_elem_of_singleton; by left|].
  intros (h' & -> & Hin)%list_elem_of_fmap. rewrite final_settle.
  assert (h' = call_got_room ∨ h' ≠ call_got_room) as [->|Hne]
    by (destruct h'; (by left) || (by right)).
  - destruct (Hroom Hin) as (Hst & text & ->). cbn [call message_text].
    pose proof (got_room_directory text c.2) as Hd.
    destruct (current (the_session c.2)) as [item|] eqn:Hc; [|by left].
    destruct (floor item) as [f|] eqn:Hf; [|by left].
    right. left. by exists text, item, f.
  - left. apply call_directory; [done|]. by eapply Forall_forall in Hw.
Qed.

(** X13: the directory file changes in two ways only: a room answered in
    the state [ASK_ROOM] writes the record of the current entry under its
    surname, and a delete button removes the record of its surname.
    Every other update, and every handler that raises before that, leaves
    the file as it is. *)
Theorem bot_step_directory (c c' : option conv * world) (e : event) :
  c' ∈ bot_step c e →
  let db := default ∅ (employees_json c.2) in
  employees_json c'.2 = employees_json c.2
  ∨ (∃ text item f,
       e = message_update (text_message text) ∧ c.1 = Some ASK_ROOM
       ∧ current (the_session c.2) = Some item ∧ floor item = Some f
       ∧ employees_json c'.2
         = Some (<[surname item := directory_record item f (strip text)]> db))
  ∨ (∃ k, e = callback_query (lit "del:" ++ k) ∧ is_Some (db !! k)
          ∧ employees_json c'.2 = Some (delete k db)).
Proof.
  intros Hin. change (directory_step c e (employees_json c'.2)).
  revert Hin. destruct e as [[text|n]|data]; cbn [bot_step].
  - apply conversation_directory.
  - destruct (_ || _); [intros ->%list_elem_of_singleton; by left|].
    case_bool_decide; [|apply conversation_directory].
    intros ->%list_elem_of_singleton. rewrite final_settle. left.
    apply (preserves_cmd_clear same_directory); same_directory_side.
  - destruct (starts_with (lit "del:") data) eqn:Hdel.
    { intros ->%list_elem_of_singleton. cbn [snd].
      apply starts_with_split in Hdel.
      change (length (lit "del:")) with 4%nat in Hdel.
      unfold cb_delete. case_decide; [by left|]. cbv zeta.
      destruct (_ !! drop 4 data) as [emp|] eqn:Hk; [|by left].
      right. right. exists (drop 4 data).
      split_and!; [by f_equal|by eexists|done]. }
    destruct (starts_with (lit "done:") data);
      intros ->%list_elem_of_singleton; [|by left].
    left. apply (preserves_cb_done same_directory); same_directory_side.
Qed.

End FrameHandlers.

(** ** The sessions of a run *)

Section Sessions.
Context {U : Unicode}.

Lemma classify_has_floor db parsed : Forall has_floor (classify db parsed).1.
Proof.
  rewrite classify_known. induction parsed as [|item parsed IH]; simpl; [done|].
  destruct (db !! surname item); simpl; [|done].
  constructor; [by eexists|done].
Qed.

Lemma manifest_session_has_floor db parsed :
  Forall has_floor (deliveries (manifest_session db parsed)).
Proof.
  unfold manifest_session.
  pose proof (classify_has_floor db parsed) as Hfloor.
  destruct (classify db parsed) as [known [|item rest]]; simpl in *; [|done].
  by rewrite optimize_route_perm.
Qed.

Lemma handle_text_renderable text w :
  renderable w → renderable (final (handle_text text w)).
Proof.
  intros [Hf Hr]. split; [|by apply handle_text_rooms].
  destruct (parse_delivery_total (strip text)) as [parsed Hp].
  destruct (decide (parsed = [])) as [->|Hne].
  - unfold handle_text, mbind, M_bind. rewrite Hp. done.
  - destruct (handle_text_manifest text parsed w Hp Hne) as [out ->].
    apply manifest_session_has_floor.
Qed.

Lemma got_floor_renderable text w :
  renderable w → renderable (final (got_floor text w)).
Proof.
  intros [Hf Hr]. split; [|by apply got_floor_rooms].
  unfold got_floor.
  destruct (isdigit (strip text)); simpl; [|done].
  unfold mbind, M_bind. simpl.
  destruct (int (strip text)) as [f|e]; simpl; [|done].
  autorewrite with world.
  destruct (current (the_session w)); simpl; done.
Qed.

Lemma got_room_renderable text w :
  renderable w → renderable (final (got_room text w)).
Proof.
  intros [Hf Hr]. split; [|by apply got_room_rooms].
  destruct (current (the_session w)) as [item|] eqn:Hc.
  - destruct (floor item) as [f|] eqn:Hfl.
    + destruct (got_room_ok text f item w Hc Hfl Hr) as [out ->].
      assert (Forall has_floor
                (deliveries (the_session w) ++ [resolved item f (strip text)]))
        as Hds.
      { apply Forall_app. split; [done|]. repeat constructor. by eexists. }
      unfold the_session at 1. simpl.
      destruct (pending (the_session w)); simpl; [|done].
      by rewrite optimize_route_perm.
    + unfold got_room, mbind, M_bind. simpl. autorewrite with world.
      rewrite Hc. simpl. rewrite Hfl. simpl. by autorewrite with world.
  - unfold got_room, mbind, M_bind. simpl. autorewrite with world.
    rewrite Hc. simpl. by autorewrite with world.
Qed.

Lemma cb_done_renderable data w :
  renderable w → renderable (final (cb_done data w)).
Proof.
  intros [Hf Hr]. split; [|by apply cb_done_rooms].
  unfold rooms_known in *. unfold cb_done, mbind, M_bind. simpl.
  case_decide; simpl; [by constructor|].
  destruct (int (drop 5 data)) as [idx|e]; simpl; [|done].
  autorewrite with world.
  destruct (idx >=? _)%Z; simpl; [by autorewrite with world|].
  destruct (pop (deliveries (the_session w)) idx) as [[done ds]|e] eqn:Hpop;
    simpl; [|by autorewrite with world].
  pose proof (pop_Forall has_room _ _ _ _ Hpop Hr) as Hr'.
  pose proof (pop_Forall has_floor _ _ _ _ Hpop Hf) as Hf'.
  destruct (reply_route_ok ds Hr') as (t & kb & Ht & Hk & _).
  rewrite Ht, Hk.
  destruct ds as [|d ds]; simpl; [by constructor|].
  by autorewrite with world.
Qed.

Lemma cmd_clear_renderable w : renderable (final (cmd_clear w)).
Proof. split; by constructor. Qed.

Lemma call_renderable h u w : renderable w → renderable (final (call h u w)).
Proof.
  intros Hw. destruct h; cbn [call].
  - by apply handle_text_renderable.
  - done.
  - by apply got_floor_renderable.
  - by apply got_room_renderable.
  - apply cmd_clear_renderable.
  - unfold got_floor_manual, mbind, M_bind. simpl.
    destruct (_ && _); simpl; [done|].
    destruct (isdigit _); simpl; [|done].
    destruct (int _); simpl; done.
Qed.

Lemma conversation_renderable c u c' :
  c' ∈ conversation c u → renderable c.2 → renderable c'.2.
Proof.
  unfold conversation.
  destruct (candidates c.1 u) as [|h hs]; [by intros ->%list_elem_of_singleton|].
  intros (h' & -> & _)%list_elem_of_fmap Hw. rewrite final_settle.
  by apply call_renderable.
Qed.

Lemma bot_step_renderable c e c' :
  c' ∈ bot_step c e → renderable c.2 → renderable c'.2.
Proof.
  destruct e as [[text|n]|data]; cbn [bot_step].
  - apply conversation_renderable.
  - destruct (_ || _); [by intros ->%list_elem_of_singleton|].
    case_bool_decide; [|apply conversation_renderable].
    intros ->%list_elem_of_singleton _. rewrite final_settle.
    apply cmd_clear_renderable.
  - destruct (starts_with (lit "del:") data).
    { intros ->%list_elem_of_singleton. cbn [snd]. unfold cb_delete.
      case_decide; [done|]. cbv zeta. by destruct (_ !! _). }
    destruct (starts_with (lit "done:") data);
      intros ->%list_elem_of_singleton; [|done].
    cbn [snd]. apply cb_done_renderable.
Qed.

(** X14: in every run of the bot that starts with a session whose
    deliveries have a floor and a room (the empty session of a new user
    is one), every session reached is of that kind, so its route and its
    keyboard can be built: [format_route] and [build_route_keyboard] do
    not raise on it. *)
Theorem bot_runs_renderable (es : list event) (c c' : option conv * world) :
  c' ∈ bot_runs c es → renderable c.2 →
  renderable c'.2
  ∧ ∃ text keyboard,
      format_route (deliveries (the_session c'.2)) = Ok text
      ∧ build_route_keyboard (deliveries (the_session c'.2)) = Ok keyboard.
Proof.
  intros Hin Hc.
  assert (renderable c'.2) as Hc'.
  { revert c Hin Hc. induction es as [|e es IH]; intros c; simpl.
    - by intros ->%list_elem_of_singleton.
    - intros (c1 & Hin & Hc1)%list_elem_of_bind Hc.
      apply (IH c1 Hin). by eapply bot_step_renderable. }
  split; [done|]. destruct Hc' as [_ Hr].
  destruct (reply_route_ok _ Hr) as (t & kb & Ht & Hk & _). by exists t, kb.
Qed.


End Sessions.

(** ** Manifests and interviews *)

Section Interview.
Context {U : Unicode}.

Lemma classify_lines db parsed :
  line_of <$> ((classify db parsed).1 ++ (classify db parsed).2)
  ≡ₚ line_of <$> parsed.
Proof.
  rewrite classify_known, classify_unknown.
  induction parsed as [|item parsed IH]; [done|]. simpl.
  destruct (db !! surname item) as [emp|] eqn:Hdb; simpl.
  - rewrite filter_cons_False by (unfold miss; congruence).
    csimpl. unfold line_of at 1 3. simpl. by rewrite IH.
  - rewrite filter_cons_True by done.
    rewrite fmap_app, fmap_cons, <-Permutation_middle, <-fmap_app.
    csimpl. by rewrite IH.
Qed.

(** X16: a manifest with entries loses no line and invents none: the
    surnames and orders of the entries that [handle_text] leaves in the
    session (in the route, asked about, or waiting) are those of the
    parsed lines, each as often as it was sent. *)
Theorem handle_text_keeps_every_line
    (text : list N) (parsed : list entry) (w : world) :
  parse_delivery (strip text) = Ok parsed → parsed ≠ [] →
  line_of <$> in_session (the_session (final (handle_text text w)))
  ≡ₚ line_of <$> parsed.
Proof.
  intros Hp Hne.
  destruct (handle_text_manifest text parsed w Hp Hne) as [out ->].
  cbn [final]. rewrite <-(classify_lines (default ∅ (employees_json w)) parsed).
  unfold the_session, in_session, manifest_session. cbn.
  destruct (classify _ parsed) as [known [|item rest]]; cbn.
  - by rewrite !app_nil_r, optimize_route_perm.
  - done.
Qed.

Lemma interview_turn ft f rt item w :
  current (the_session w) = Some item → rooms_known w →
  isdigit (strip ft) = true → int (strip ft) = Ok f →
  ∃ w1 out1 r w2 out2,
    got_floor ft w = Done (Some ASK_ROOM) w1 out1
    ∧ got_room rt w1 = Done r w2 out2
    ∧ rooms_known w2
    ∧ employees_json w2
      = Some (record_answer (default ∅ (employees_json w)) (item, (ft, f, rt)))
    ∧ match pending (the_session w) with
      | [] => r = Some END
              ∧ deliveries (the_session w2)
                = optimize_route (deliveries (the_session w)
                                  ++ [saved item (ft, f, rt)])
              ∧ pending (the_session w2) = []
      | next :: rest =>
          r = Some ASK_FLOOR
          ∧ deliveries (the_session w2)
            = deliveries (the_session w) ++ [saved item (ft, f, rt)]
          ∧ pending (the_session w2) = rest
          ∧ current (the_session w2) = Some next
      end.
Proof.
  intros Hc Hr Hd Hi.
  pose proof (got_floor_ok ft f item w Hd Hi Hc) as Hfloor.
  set (w1 := set_user_data _ w) in *.
  destruct (got_room_ok rt f (set_floor f item) w1) as [out2 Hroom];
    [done..|].
  cbv zeta in Hroom.
  eexists w1, _, _, _, out2. split; [exact Hfloor|]. split; [exact Hroom|].
  split.
  { pose proof (got_room_rooms rt w1 (Hr : rooms_known w1)) as Hr2.
    by rewrite Hroom in Hr2. }
  split; [done|].
  subst w1. autorewrite with world. cbn [pending set_current].
  destruct (pending (the_session w)); done.
Qed.

Lemma interview_runs (rest : list entry) :
  ∀ (w : world) (item : entry) (answers : list interview_answer),
  current (the_session w) = Some item →
  pending (the_session w) = rest →
  rooms_known w →
  length answers = S (length rest) →
  Forall (λ a : interview_answer,
            isdigit (strip a.1.1) = true ∧ int (strip a.1.1) = Ok a.1.2)
    answers →
  ∃ w',
    interviewed w answers w'
    ∧ deliveries (the_session w')
      = optimize_route
          (deliveries (the_session w) ++ zip_with saved (item :: rest) answers)
    ∧ pending (the_session w') = []
    ∧ employees_json w'
      = Some (foldl record_answer (default ∅ (employees_json w))
                (zip (item :: rest) answers)).
Proof.
  induction rest as [|next rest IH]; intros w item answers Hc Hp Hr Hlen Hall.
  - destruct answers as [|[[ft f] rt] [|? ?]]; try done.
    apply Forall_cons in Hall as [[Hd Hi] _]. cbn [fst snd] in Hd, Hi.
    destruct (interview_turn ft f rt item w Hc Hr Hd Hi)
      as (w1 & out1 & r & w2 & out2 & Hfloor & Hroom & _ & Hdb & Hs).
    rewrite Hp in Hs. destruct Hs as (-> & Hds & Hpend).
    exists w2. split_and!; [|exact Hds|exact Hpend|exact Hdb].
    by eapply interviewed_last.
  - destruct answers as [|[[ft f] rt] answers]; [done|].
    apply Forall_cons in Hall as [[Hd Hi] Hall]. cbn [fst snd] in Hd, Hi.
    destruct (interview_turn ft f rt item w Hc Hr Hd Hi)
      as (w1 & out1 & r & w2 & out2 & Hfloor & Hroom & Hr2 & Hdb & Hs).
    rewrite Hp in Hs. destruct Hs as (-> & Hds & Hpend & Hcur).
    destruct (IH w2 next answers) as (w' & Hrun' & Hds' & Hpend' & Hdb');
      [done|done|done|cbn in Hlen; lia|done|].
    exists w'. split_and!.
    + by eapply interviewed_next.
    + rewrite Hds', Hds. cbn [zip_with]. by rewrite <-app_assoc.
    + done.
    + rewrite Hdb', Hdb. done.
Qed.

(** X17: an interview runs in the order of the manifest.  With an entry
    asked about and others waiting, and a floor and a room answered for
    each of them (floors that are digits and convert), the handlers
    carry the interview through without raising: every entry gets the
    floor and the room of its own turn, all are added to the deliveries,
    which are sorted once at the end, nothing is left waiting, and the
    directory has received their records one after the other. *)
Theorem interview_in_manifest_order
    (w : world) (item : entry) (answers : list interview_answer) :
  current (the_session w) = Some item →
  rooms_known w →
  length answers = S (length (pending (the_session w))) →
  Forall (λ a : interview_answer,
            isdigit (strip a.1.1) = true ∧ int (strip a.1.1) = Ok a.1.2)
    answers →
  let items := item :: pending (the_session w) in
  ∃ w',
    interviewed w answers w'
    ∧ deliveries (the_session w')
      = optimize_route
          (deliveries (the_session w) ++ zip_with saved items answers)
    ∧ pending (the_session w') = []
    ∧ employees_json w'
      = Some (foldl record_answer (default ∅ (employees_json w))
                (zip items answers)).
Proof. intros Hc Hr Hlen Hall. by apply interview_runs. Qed.

(** X18: a floor text that [isdigit] accepts and [int] refuses makes
    [got_floor] raise [ValueError]: nothing is sent, and the session is
    as it was (created, if the user had none). *)
Theorem got_floor_digit_not_int (text : list N) (e : exn) (w : world) :
  isdigit (strip text) = true → int (strip text) = Raise e →
  e = ValueError
  ∧ got_floor text w
    = Raised ValueError (set_user_data (set_session (the_session w)) w) [].
Proof.
  intros Hd Hi.
  assert (e = ValueError) as ->.
  { unfold int in Hi. destruct (_ ≫= _); congruence. }
  split; [done|].
  unfold got_floor. rewrite Hd. unfold mbind, M_bind. simpl. by rewrite Hi.
Qed.


End Interview.

(** ** The listing of the directory *)

Lemma setdefault_append_keys f x acc :
  (setdefault_append f x acc).*1
  = if decide (f ∈ acc.*1) then acc.*1 else acc.*1 ++ [f].
Proof.
  induction acc as [|[g m] acc IH].
  - cbn [setdefault_append]. destruct (decide (f ∈ [].*1)) as [Hin|]; [|done].
    by apply elem_of_nil in Hin.
  - cbn [setdefault_append]. destruct (decide (g = f)) as [->|Hg]; csimpl.
    + destruct (decide (f ∈ f :: acc.*1)) as [|Hin]; [done|].
      destruct Hin. by left.
    + rewrite IH.
      destruct (decide (f ∈ acc.*1)) as [Hin|Hin],
        (decide (f ∈ g :: acc.*1)) as [Hin'|Hin']; try done.
      * destruct Hin'. by right.
      * apply elem_of_cons in Hin' as [->|?]; done.
Qed.

Lemma setdefault_append_NoDup f x acc :
  NoDup acc.*1 → NoDup (setdefault_append f x acc).*1.
Proof.
  intros Hnd. rewrite setdefault_append_keys. case_decide; [done|].
  apply NoDup_app. split_and!; [done| |apply NoDup_singleton].
  intros g Hg ->%list_elem_of_singleton. done.
Qed.

Lemma setdefault_append_elem f x acc g m :
  NoDup acc.*1 →
  (g, m) ∈ setdefault_append f x acc →
  (g ≠ f ∧ (g, m) ∈ acc)
  ∨ (g = f ∧ ((∃ m0, (f, m0) ∈ acc ∧ m = m0 ++ [x])
              ∨ ((f ∉ acc.*1) ∧ m = [x]))).
Proof.
  induction acc as [|[h m0] acc IH]; simpl.
  - intros _ Heq%list_elem_of_singleton. injection Heq as -> ->.
    right. split; [done|].
    right. split; [|done]. by intros ?%elem_of_nil.
  - intros [Hh Hnd]%NoDup_cons. case_decide as Hhf.
    + subst h. intros [[= -> ->]|Hin]%elem_of_cons.
      * right. split; [done|]. left. exists m0. split; [by left|done].
      * left. split; [|by right]. intros ->. apply Hh.
        apply list_elem_of_fmap. by exists (f, m).
    + intros [[= -> ->]|Hin]%elem_of_cons.
      * left. split; [done|by left].
      * destruct (IH Hnd Hin) as [[Hne Hin']|[-> [(m1 & Hin' & ->)|[Hnot ->]]]].
        -- left. split; [done|by right].
        -- right. split; [done|]. left. exists m1. split; [by right|done].
        -- right. split; [done|]. right. split; [|done].
           intros [?|?]%elem_of_cons; done.
Qed.

(** The groups of [by_floor]: one for every floor that occurs, with the
    items of that floor in the order of the dictionary. *)
Lemma group_by_floor_spec items :
  NoDup (group_by_floor items).*1
  ∧ (∀ g m, (g, m) ∈ group_by_floor items →
       m ≠ [] ∧ m = filter (λ x, emp_floor x.2 = g) items)
  ∧ (∀ x, x ∈ items → emp_floor x.2 ∈ (group_by_floor items).*1).
Proof.
  induction items as [|x items (Hnd & Hgroups & Hall)] using rev_ind.
  - split_and!; [constructor|by intros g m ?%elem_of_nil|by intros x ?%elem_of_nil].
  - unfold group_by_floor in *. rewrite foldl_app. cbn [foldl].
    set (G := foldl _ [] items) in *. split_and!.
    + by apply setdefault_append_NoDup.
    + intros g m Hin. rewrite filter_app.
      destruct (setdefault_append_elem _ _ _ _ _ Hnd Hin)
        as [[Hne Hin']|[-> [(m1 & Hin' & ->)|[Hnot ->]]]].
      * destruct (Hgroups g m Hin') as [Hm ->]. split; [done|].
        rewrite (filter_cons_False _ x) by done.
        by rewrite filter_nil, app_nil_r.
      * destruct (Hgroups _ m1 Hin') as [Hm ->]. split.
        { by intros [? ?]%app_eq_nil. }
        by rewrite (filter_cons_True _ x), filter_nil by done.
      * split; [done|].
        rewrite (filter_cons_True _ x), filter_nil by done.
        rewrite (filter_none (λ y, emp_floor y.2 = emp_floor x.2)); [done|].
        apply Forall_forall. intros y Hy Heq. apply Hnot.
        rewrite <-Heq. by apply Hall.
    + intros y Hy. rewrite setdefault_append_keys.
      apply elem_of_app in Hy as [Hy|Hy];
        [|apply list_elem_of_singleton in Hy as ->].
      * case_decide; [by apply Hall|]. apply elem_of_app. left. by apply Hall.
      * case_decide; [done|]. apply elem_of_app. right. by left.
Qed.

Lemma setdefault_append_members f x acc :
  setdefault_append f x acc ≫= snd ≡ₚ (acc ≫= snd) ++ [x].
Proof.
  induction acc as [|[h m0] acc IH]; [done|]. simpl.
  case_decide; csimpl.
  - by rewrite <-app_assoc, (Permutation_app_comm [x]), app_assoc.
  - by rewrite IH, app_assoc.
Qed.

Lemma group_by_floor_members items : group_by_floor items ≫= snd ≡ₚ items.
Proof.
  induction items as [|x items IH] using rev_ind; [done|].
  unfold group_by_floor in *. rewrite foldl_app. cbn [foldl].
  by rewrite setdefault_append_members, IH.
Qed.

Lemma Z_ltb_asym (a b : Z) : (a <? b)%Z = true → (b <? a)%Z = false.
Proof. lia. Qed.

Lemma Z_leb_trans (a b c : Z) :
  (b <? a)%Z = false → (c <? b)%Z = false → (c <? a)%Z = false.
Proof. lia. Qed.

Lemma persons_app a b : persons (a ++ b) = persons a ++ persons b.
Proof. apply omap_app. Qed.

Lemma persons_person_lines l :
  persons (person_line <$> l)
  = (λ x, (default (capitalize x.1) (full_name x.2), emp_room x.2)) <$> l.
Proof. induction l as [|x l IH]; [done|]. csimpl. by rewrite IH. Qed.

Lemma persons_groups groups :
  persons (groups ≫= floor_lines)
  ≡ₚ (λ x, (default (capitalize x.1) (full_name x.2), emp_room x.2))
       <$> (groups ≫= snd).
Proof.
  induction groups as [|g groups IH]; [done|]. csimpl.
  rewrite persons_app, fmap_app, IH. apply Permutation_app; [|done].
  change (list_floor g.1 :: ?l) with ([list_floor g.1] ++ l).
  rewrite !persons_app. simpl. rewrite app_nil_r, persons_person_lines.
  by rewrite sorted_perm.
Qed.

Lemma groups_ascending (groups : list (Z * list (list N * employee))) :
  NoDup groups.*1 → StronglySorted (key_le Z.ltb fst) groups →
  StronglySorted (λ g h, (g.1 < h.1)%Z) groups.
Proof.
  intros Hnd Hs. induction Hs as [|g groups Hs IH Hg]; [constructor|].
  revert Hnd. csimpl. intros [Hg' Hnd]%NoDup_cons.
  constructor; [by apply IH|].
  rewrite Forall_forall in Hg. apply Forall_forall. intros h Hh.
  specialize (Hg h Hh). unfold key_le in Hg.
  assert (g.1 ≠ h.1); [|lia].
  intros Heq. apply Hg'. rewrite Heq. apply list_elem_of_fmap. by exists h.
Qed.

(** X20: [/list] on a directory with records names every record once,
    under the banner of its floor: the floors come in strictly ascending
    order, each once; the records of a floor are those of the directory
    in its order, then sorted by room; and the last line counts the
    records. *)
Theorem cmd_list_groups (items : list (list N * employee)) :
  items ≠ [] →
  ∃ groups,
    cmd_list items
    = msg_list (list_title :: (groups ≫= floor_lines)
                ++ [list_total (length items)])
    ∧ StronglySorted (λ g h, (g.1 < h.1)%Z) groups
    ∧ Forall (λ g, g.2 ≠ []
                   ∧ g.2 = filter (λ x, emp_floor x.2 = g.1) items) groups
    ∧ (∀ x, x ∈ items → emp_floor x.2 ∈ groups.*1)
    ∧ persons (groups ≫= floor_lines)
      ≡ₚ (λ x, (default (capitalize x.1) (full_name x.2), emp_room x.2))
           <$> items.
Proof.
  intros Hne. destruct (group_by_floor_spec items) as (Hnd & Hgroups & Hall).
  set (G := group_by_floor items) in *.
  exists (sorted Z.ltb fst G).
  pose proof (sorted_perm Z.ltb fst G) as Hperm.
  split_and!.
  - unfold cmd_list. by destruct items.
  - apply groups_ascending; [by rewrite Hperm|].
    apply sorted_StronglySorted; [apply Z_ltb_asym|apply Z_leb_trans].
  - rewrite Hperm. apply Forall_forall. intros [g m] Hin. by apply Hgroups.
  - intros x Hx. rewrite Hperm. by apply Hall.
  - rewrite persons_groups, Hperm. subst G.
    by rewrite group_by_floor_members.
Qed.

(** ** The lines the parser accepts *)

(** A greedy repetition takes the longest run of the class and goes on
    from there when the rest of the pattern matches there. *)
Lemma rep_greedy_max {R} cls lo hi pos p s (k : nat → list N → option R) r :
  Forall (λ c, cls c = true) p →
  (lo ≤ length p)%nat → (∀ h, hi = Some h → (length p ≤ h)%nat) →
  match s with
  | c :: _ => cls c = false ∨ hi = Some (length p)
  | [] => True
  end →
  k (pos + length p)%nat s = Some r →
  rep cls false lo hi pos (p ++ s) k = Some r.
Proof.
  intros Hp. revert lo hi pos.
  induction Hp as [|c p Hc Hp IH]; intros lo hi pos Hlo Hhi Hmax Hk.
  - simpl in *. assert (lo = 0%nat) as -> by lia.
    rewrite Nat.add_0_r in Hk.
    destruct s as [|c s]; simpl; [done|].
    destruct Hmax as [->| ->]; simpl; [done|].
    by rewrite andb_false_r.
  - cbn [app rep]. rewrite Hc.
    assert (may_take hi = true) as ->.
    { destruct hi as [[|h]|]; try done. specialize (Hhi _ eq_refl).
      simpl in Hhi. lia. }
    cbn [andb]. rewrite (IH (pred lo) (pred <$> hi) (S pos)); [done|..].
    + simpl in Hlo. lia.
    + intros h Hh. destruct hi as [h'|]; [|done]. injection Hh as <-.
      specialize (Hhi _ eq_refl). simpl in Hhi. lia.
    + destruct s as [|c' s]; [done|]. destruct Hmax as [?| ->]; [by left|].
      by right.
    + rewrite <-Hk. f_equal. simpl. lia.
Qed.

(** A lazy repetition stops at the first length at which the rest of
    the pattern matches. *)
Lemma rep_lazy_first {R} cls lo pos p s (k : nat → list N → option R) r :
  Forall (λ c, cls c = true) p →
  (lo ≤ length p)%nat →
  (∀ n, (lo ≤ n < length p)%nat → k (pos + n)%nat (drop n (p ++ s)) = None) →
  k (pos + length p)%nat s = Some r →
  rep cls true lo None pos (p ++ s) k = Some r.
Proof.
  intros Hp. revert lo pos.
  induction Hp as [|c p Hc Hp IH]; intros lo pos Hlo Hfail Hk.
  - simpl in *. assert (lo = 0%nat) as -> by lia.
    rewrite Nat.add_0_r in Hk.
    destruct s as [|c s]; simpl; [done|].
    rewrite Hk. by destruct (cls c).
  - cbn [app rep]. rewrite Hc. cbn [andb may_take].
    assert (match lo with
            | O => k pos (c :: p ++ s)
            | S _ => None
            end = None) as ->.
    { destruct lo; [|done]. specialize (Hfail 0%nat ltac:(simpl; lia)).
      by rewrite Nat.add_0_r in Hfail. }
    cbn [or_else fmap option_fmap option_map].
    apply IH.
    + simpl in Hlo. lia.
    + intros n Hn. specialize (Hfail (S n) ltac:(simpl; lia)).
      rewrite <-Hfail. f_equal. lia.
    + rewrite <-Hk. f_equal. simpl. lia.
Qed.

Section Accepts.
Context {U : Unicode}.

(** What follows the name in a line: [\s*[-–—]?\s*(\d{3,6})\s*$]. *)
Definition line_tail (pos : nat) (s : list N) (caps : gmap nat (list N))
  : option (gmap nat (list N)) :=
  run (spaces ⋅ (Rep dash 0 (Some 1%nat) false
                 ⋅ (spaces ⋅ (Group 2 (Rep is_decimal 3 (Some 6%nat) false)
                              ⋅ (spaces ⋅ Eol)))))
    pos s caps (λ _ _ caps, Some caps).

Lemma re_match_line_tail line :
  re_match line_re line
  = rep name_start false 1 (Some 1%nat) 0 line
      (λ p1 s1, rep name_char true 1 None p1 s1
                  (λ p2 s2, line_tail p2 s2 (<[1%nat := take (p2 - 0) line]> ∅))).
Proof. reflexivity. Qed.

Lemma line_tail_no_letter pos s caps z :
  z ∈ s → name_start z = true → line_tail pos s caps = None.
Proof.
  intros Hz Hl. destruct (line_tail pos s caps) as [m|] eqn:H; [exfalso|done].
  unfold line_tail in H. cbn [run spaces] in H.
  apply rep_sound in H as (n1 & _ & Hall1 & H).
  apply rep_sound in H as (n2 & _ & Hall2 & H).
  apply rep_sound in H as (n3 & _ & Hall3 & H).
  apply rep_sound in H as (n4 & _ & Hall4 & H).
  apply rep_sound in H as (n5 & _ & Hall5 & H).
  assert (∀ n t, z ∈ t → Forall (λ c, isspace c = true) (take n t) → z ∈ drop n t)
    as Hsp.
  { intros n t Hin Hall. rewrite <-(take_drop n t) in Hin.
    apply elem_of_app in Hin as [Hin|Hin]; [|done].
    rewrite Forall_forall in Hall. apply Hall, isspace_not_letter in Hin.
    congruence. }
  apply (Hsp n1) in Hz; [|done].
  assert (z ∈ drop n2 (drop n1 s)) as Hz2.
  { rewrite <-(take_drop n2 (drop n1 s)) in Hz.
    apply elem_of_app in Hz as [Hin|Hin]; [|done].
    rewrite Forall_forall in Hall2. apply Hall2, dash_not_letter in Hin.
    congruence. }
  apply (Hsp n3) in Hz2; [|done].
  assert (z ∈ drop n4 (drop n3 (drop n2 (drop n1 s)))) as Hz4.
  { rewrite <-(take_drop n4 (drop n3 _)) in Hz2.
    apply elem_of_app in Hz2 as [Hin|Hin]; [|done].
    rewrite Forall_forall in Hall4. apply Hall4, decimal_not_letter in Hin.
    congruence. }
  apply (Hsp n5) in Hz4; [|done].
  destruct (drop n5 _) as [|c [|c' t]]; [by apply elem_of_nil in Hz4| |].
  - apply list_elem_of_singleton in Hz4 as ->.
    destruct c as [|p]; [done|]. do 4 (destruct p as [p|p|]; try done).
  - destruct c as [|p]; [done|]. do 4 (destruct p as [p|p|]; try done).
Qed.

Lemma ascii_digit_decimal c : ascii_digit c = true → is_decimal c = true.
Proof.
  intros Hc. unfold is_decimal. apply bool_decide_eq_true.
  rewrite decimal_ascii, Hc; [by eexists|].
  unfold ascii_digit, in_range in Hc. apply andb_prop in Hc as [_ Hc].
  apply N.leb_le in Hc. lia.
Qed.

Lemma ascii_digit_not_space c : ascii_digit c = true → isspace c = false.
Proof.
  unfold ascii_digit, in_range. intros [H1 H2]%andb_prop.
  apply N.leb_le in H1, H2.
  destruct (isspace c) eqn:Hs; [exfalso|done]. char_ranges.
Qed.

Lemma ascii_digit_not_dash c : ascii_digit c = true → dash c = false.
Proof.
  unfold ascii_digit, in_range. intros [H1 H2]%andb_prop.
  apply N.leb_le in H1, H2.
  destruct (dash c) eqn:Hs; [exfalso|done]. char_ranges.
Qed.

Lemma dash_not_space c : dash c = true → isspace c = false.
Proof. intros Hd. destruct (isspace c) eqn:Hs; [exfalso|done]. char_ranges. Qed.

(** The separator and the order code of a line are taken by the rest of
    the pattern. *)
Lemma line_tail_accepts pos caps ws1 d ws2 digits :
  Forall (λ c, isspace c = true) ws1 →
  Forall (λ c, dash c = true) d → (length d ≤ 1)%nat →
  Forall (λ c, isspace c = true) ws2 → (d = [] → ws2 = []) →
  Forall (λ c, ascii_digit c = true) digits → (3 ≤ length digits ≤ 6)%nat →
  line_tail pos (ws1 ++ d ++ ws2 ++ digits) caps
  = Some (<[2%nat := digits]> caps).
Proof.
  intros Hws1 Hd Hlen Hws2 Hd2 Hdig Hn.
  destruct digits as [|c0 digits0] eqn:Hdigits; [simpl in Hn; lia|].
  rewrite <-Hdigits in *.
  assert (ascii_digit c0 = true) as Hc0.
  { rewrite Hdigits in Hdig. by apply Forall_cons in Hdig as [? _]. }
  unfold line_tail. cbn [run spaces].
  apply rep_greedy_max; [done|lia|done| |].
  { destruct d as [|x d']; [rewrite (Hd2 eq_refl)|]; simpl.
    - rewrite Hdigits. left. by apply ascii_digit_not_space.
    - left. apply Forall_cons in Hd as [Hx _]. by apply dash_not_space. }
  apply rep_greedy_max; [done|lia|by intros h [= <-]| |].
  { destruct d as [|x [|? ?]]; [rewrite (Hd2 eq_refl)| |simpl in Hlen; lia].
    - simpl. rewrite Hdigits. left. by apply ascii_digit_not_dash.
    - destruct (ws2 ++ digits); [done|by right]. }
  apply rep_greedy_max; [done|lia|done| |].
  { rewrite Hdigits. left. by apply ascii_digit_not_space. }
  rewrite <-(app_nil_r digits).
  apply rep_greedy_max; [|lia|intros h [= <-]; lia|done|].
  { eapply Forall_impl; [exact Hdig|]. apply ascii_digit_decimal. }
  apply (rep_greedy_max _ _ _ _ []); [done|simpl; lia|done|done|].
  cbn [run]. rewrite !app_nil_r. do 2 f_equal. apply take_ge. lia.
Qed.

Lemma re_match_accepts c mid z ws1 d ws2 digits :
  name_start c = true → Forall (λ c, name_char c = true) mid →
  name_start z = true →
  Forall (λ c, isspace c = true) ws1 →
  Forall (λ c, dash c = true) d → (length d ≤ 1)%nat →
  Forall (λ c, isspace c = true) ws2 → (d = [] → ws2 = []) →
  Forall (λ c, ascii_digit c = true) digits → (3 ≤ length digits ≤ 6)%nat →
  re_match line_re ((c :: mid ++ [z]) ++ ws1 ++ d ++ ws2 ++ digits)
  = Some (<[2%nat := digits]> (<[1%nat := c :: mid ++ [z]]> ∅)).
Proof.
  intros Hc Hmid Hz Hws1 Hd Hlen Hws2 Hd2 Hdig Hn.
  rewrite re_match_line_tail.
  set (tail := ws1 ++ d ++ ws2 ++ digits).
  set (line := (c :: mid ++ [z]) ++ tail).
  change line with ([c] ++ ((mid ++ [z]) ++ tail)) at 1.
  apply rep_greedy_max; [by repeat constructor|done|by intros h [= <-]| |].
  { destruct mid; by right. }
  apply rep_lazy_first.
  - apply Forall_app. split; [done|]. repeat constructor.
    unfold name_char. by rewrite Hz.
  - rewrite length_app. simpl. lia.
  - intros n Hn'. apply (line_tail_no_letter _ _ _ z); [|done].
    rewrite length_app in Hn'. simpl in Hn'.
    rewrite <-app_assoc, drop_app_le by lia.
    apply elem_of_app. right. by left.
  - replace (0 + length [c] + length (mid ++ [z]) - 0)%nat
      with (length (c :: mid ++ [z])) by (simpl; lia).
    subst line. rewrite take_app_length.
    by apply line_tail_accepts.
Qed.

Lemma strip_id s :
  (∀ c s', s = c :: s' → isspace c = false) →
  (∀ s' z, s = s' ++ [z] → isspace z = false) →
  strip s = s.
Proof.
  intros Hfirst Hlast. unfold strip. rewrite (lstrip_id s Hfirst).
  rewrite lstrip_id; [apply reverse_involutive|].
  intros c s' Hr. apply (Hlast (reverse s')).
  by rewrite <-(reverse_involutive s), Hr, reverse_cons.
Qed.

Lemma split_on_absent sep s : sep ∉ s → split_on sep s = [s].
Proof.
  induction s as [|c s IH]; [done|]. intros Hs.
  apply not_elem_of_cons in Hs as [Hc Hs]. simpl.
  destruct (N.eqb_spec c sep) as [->|_]; [done|]. by rewrite IH.
Qed.

(** X21: a line made of a name of the grammar that ends with a letter,
    an optional separator (whitespace, at most one dash, whitespace) and
    an order code of three to six ASCII digits is parsed into one entry:
    the name as written, the surname its first token in lower case, the
    order code as written. *)
Theorem parse_delivery_accepts (c z : N) (mid ws1 d ws2 digits : list N) :
  let name_ := c :: mid ++ [z] in
  let line := name_ ++ ws1 ++ d ++ ws2 ++ digits in
  name_start c = true → Forall (λ c, name_char c = true) mid →
  name_start z = true →
  Forall (λ c, isspace c = true) ws1 →
  Forall (λ c, dash c = true) d → (length d ≤ 1)%nat →
  Forall (λ c, isspace c = true) ws2 → (d = [] → ws2 = []) →
  Forall (λ c, ascii_digit c = true) digits → (3 ≤ length digits ≤ 6)%nat →
  LF ∉ line →
  ∃ first rest,
    split_ws name_ = first :: rest
    ∧ parse_delivery line
      = Ok [{| name := name_; surname := lower first; order := digits;
               floor := None; room := None |}].
Proof.
  intros name_ line Hc Hmid Hz Hws1 Hd Hlen Hws2 Hd2 Hdig Hn HLF.
  pose proof (re_match_accepts c mid z ws1 d ws2 digits
                Hc Hmid Hz Hws1 Hd Hlen Hws2 Hd2 Hdig Hn) as Hm.
  fold name_ line in Hm.
  destruct (split_ws_head c (mid ++ [z]) (letter_not_space _ Hc))
    as (first & rest & Hsplit).
  exists first, rest. split; [exact Hsplit|].
  assert (∃ dz ds, digits = ds ++ [dz] ∧ ascii_digit dz = true)
    as (dz & ds & Hdigits & Hdz).
  { destruct digits as [|d0 digits0] using rev_ind; [simpl in Hn; lia|].
    apply Forall_app in Hdig as [_ [Hd0 _]%Forall_cons]. by eexists _, _. }
  assert (strip name_ = name_) as Hname.
  { apply strip_id.
    - intros ? ? [= <- _]. by apply letter_not_space.
    - intros s' z'. unfold name_. rewrite app_comm_cons.
      intros [_ [= <-]]%app_inj_tail. by apply letter_not_space. }
  assert (strip digits = digits) as Hord.
  { apply strip_id.
    - intros c0 s' ->. apply Forall_cons in Hdig as [? _].
      by apply ascii_digit_not_space.
    - intros s' z' ->. apply Forall_app in Hdig as [_ [? _]%Forall_cons].
      by apply ascii_digit_not_space. }
  assert (strip line = line) as Hline.
  { apply strip_id.
    - intros ? ? [= <- _]. by apply letter_not_space.
    - intros s' z'. unfold line. rewrite Hdigits, !app_assoc.
      intros [_ [= <-]]%app_inj_tail. by apply ascii_digit_not_space. }
  rewrite parse_delivery_lines, (split_on_absent _ _ HLF).
  cbn [parse_lines]. rewrite Hline.
  assert (line = c :: (mid ++ [z]) ++ ws1 ++ d ++ ws2 ++ digits) as Hcons
    by done.
  rewrite Hcons at 1. rewrite Hm.
  unfold group_strip.
  rewrite (lookup_insert_ne _ 2%nat 1%nat), !lookup_insert_eq by done.
  rewrite Hname, Hord. cbn [mbind result_bind].
  assert (split_ws name_ = first :: rest) as -> by exact Hsplit.
  reflexivity.
Qed.

End Accepts.

(** ** The route order *)

Section RouteMore.
Context {U : Unicode}.

(** X22: [optimize_route] only reorders: the route has the deliveries
    given, each as often as it was given, and as many. *)
Theorem optimize_route_keeps_deliveries (l : list entry) :
  optimize_route l ≡ₚ l
  ∧ (∀ d, d ∈ optimize_route l ↔ d ∈ l)
  ∧ length (optimize_route l) = length l.
Proof.
  pose proof (sorted_perm tuple_lt key l) as Hp. fold (optimize_route l) in Hp.
  split_and!; [done| |by rewrite Hp]. intros d. by rewrite Hp.
Qed.

End RouteMore.

(** ** The further properties on concrete inputs *)

(** A database in which [isdigit] accepts the superscript digits, as
    CPython's does; they have no decimal value. *)
Definition superscript_isdigit (c : N) : bool :=
  ascii_digit c || (c =? 0xB2) || (c =? 0xB3) || (c =? 0xB9).

Lemma superscript_isdigit_ascii c :
  c < 128 → superscript_isdigit c = ascii_digit c.
Proof.
  intros Hc. unfold superscript_isdigit.
  destruct (N.eqb_spec c 0xB2), (N.eqb_spec c 0xB3), (N.eqb_spec c 0xB9);
    try lia. by rewrite !orb_false_r.
Qed.

Definition superscript_digits : Unicode := {|
  decimal := ascii_decimal;
  isdigit_char := superscript_isdigit;
  decimal_ascii c _ := eq_refl;
  decimal_digit := ascii_decimal_digit;
  decimal_cyrillic := ascii_decimal_cyrillic;
  isdigit_ascii := superscript_isdigit_ascii;
|}.

Section ConcreteMore.
#[local] Existing Instance ascii_digits.

(** The room of [батталова] is asked, [погудин] is waiting. *)
Definition room_question : world := final (got_floor (lit "12") interview_world).

Lemma parse_delivery_outer_whitespace_witness :
  Forall (λ c, isspace c = true) (lit " ")
  ∧ Forall (λ c, isspace c = true) [LF]
  ∧ parse_delivery (lit " " ++ lit "батталова 0835" ++ [LF]) = Ok [battalova].
Proof.
  assert (Forall (λ c, isspace c = true) (lit " ")) as H1
    by (vm_compute; repeat constructor).
  assert (Forall (λ c, isspace c = true) [LF]) as H2 by (repeat constructor).
  refine (conj H1 (conj H2 _)).
  rewrite (parse_delivery_outer_whitespace
             (lit " ") (lit "батталова 0835") [LF] H1 H2).
  vm_compute. reflexivity.
Defined.

Lemma format_route_numbering_witness :
  ∃ text,
    format_route [at_3_1; at_12_43] = Ok text
    ∧ listed text = [(1%nat, name at_3_1, lit "3.1", lit "2397");
                     (2%nat, name at_12_43, lit "12.43", lit "0835")].
Proof.
  destruct (format_route [at_3_1; at_12_43]) as [text|e] eqn:Ht;
    [|vm_compute in Ht; discriminate Ht].
  exists text. split; [reflexivity|].
  rewrite (format_route_numbering _ text Ht). vm_compute. reflexivity.
Defined.

Lemma format_route_banners_witness :
  Forall has_floor [at_12_43; at_3_1]
  ∧ ∃ text,
      format_route (optimize_route [at_12_43; at_3_1]) = Ok text
      ∧ NoDup (banners text) ∧ length (banners text) = 2%nat.
Proof.
  assert (Forall has_floor [at_12_43; at_3_1]) as Hl
    by (repeat constructor; eexists; reflexivity).
  split; [exact Hl|].
  destruct (format_route (optimize_route [at_12_43; at_3_1]))
    as [text|e] eqn:Ht; [|vm_compute in Ht; discriminate Ht].
  destruct (format_route_banners _ text Hl Ht) as (Hnd & _ & Hlen).
  exists text. split_and!; [reflexivity|exact Hnd|].
  rewrite Hlen. vm_compute. reflexivity.
Defined.

Lemma cb_done_marks_pressed_witness :
  build_route_keyboard (deliveries (the_session route_world))
  = Ok [mark_button 1 (name at_3_1) (lit "3.1") (lit "done:0");
        mark_button 2 (name at_12_43) (lit "12.43") (lit "done:1");
        clear_button (lit "done:clear")]
  ∧ ∃ w' out,
      cb_done (lit "done:1") route_world = Done () w' out
      ∧ deliveries (the_session w') = [at_3_1].
Proof.
  assert (build_route_keyboard (deliveries (the_session route_world))
          = Ok [mark_button 1 (name at_3_1) (lit "3.1") (lit "done:0");
                mark_button 2 (name at_12_43) (lit "12.43") (lit "done:1");
                clear_button (lit "done:clear")]) as Hkb
    by (vm_compute; reflexivity).
  split; [exact Hkb|].
  destruct (cb_done_marks_pressed route_world _ 1 2 (name at_12_43)
              (lit "12.43") (lit "done:1") Hkb eq_refl)
    as (d & w' & out & _ & _ & _ & Hdone & Hs & _).
  exists w', out. split; [exact Hdone|]. rewrite Hs. reflexivity.
Defined.

Lemma cmd_delete_lists_directory_witness :
  default ∅ (employees_json directory_world) ≠ ∅
  ∧ sorted_keys (default ∅ (employees_json directory_world)) = [lit "батталова"]
  ∧ ∃ keyboard,
      cmd_delete directory_world
      = Ok [admin_reply_text msg_whom
              (Some (keyboard ++ [cancel_button (lit "del:cancel")]))].
Proof.
  assert (default ∅ (employees_json directory_world) ≠ ∅) as Hne
    by apply insert_non_empty.
  split_and!; [exact Hne|vm_compute; reflexivity|].
  destruct (cmd_delete_lists_directory directory_world Hne)
    as (keyboard & Hcmd & _).
  exists keyboard. exact Hcmd.
Defined.

Lemma cb_delete_removes_witness :
  default ∅ (employees_json directory_world) !! lit "батталова"
  = Some (directory_record battalova 12 (lit "12.43"))
  ∧ lit "батталова" ≠ lit "cancel"
  ∧ default ∅ (employees_json (cb_delete (lit "del:батталова") directory_world).1)
    !! lit "батталова" = None.
Proof.
  assert (default ∅ (employees_json directory_world) !! lit "батталова"
          = Some (directory_record battalova 12 (lit "12.43"))) as Hk
    by apply lookup_insert_eq.
  assert (lit "батталова" ≠ lit "cancel") as Hne by (vm_compute; discriminate).
  split_and!; [exact Hk|exact Hne|].
  destruct (cb_delete_removes (lit "батталова") _ directory_world Hk Hne)
    as (_ & _ & Hgone & _).
  exact Hgone.
Defined.

Lemma cb_delete_cancel_collision_witness :
  default ∅ (employees_json cancel_world) !! lit "cancel"
  = Some (directory_record battalova 12 (lit "12.43"))
  ∧ ∃ label room data,
      delete_button (default ∅ (employees_json cancel_world)) (lit "cancel")
      = Ok (employee_button label room data)
      ∧ (cb_delete data cancel_world).1 = cancel_world.
Proof.
  assert (default ∅ (employees_json cancel_world) !! lit "cancel"
          = Some (directory_record battalova 12 (lit "12.43"))) as Hk
    by apply lookup_insert_eq.
  split; [exact Hk|].
  destruct (cb_delete_cancel_collision _ cancel_world Hk)
    as (label & room & data & Hb & _ & Hcb).
  exists label, room, data. split; [exact Hb|]. rewrite Hcb. reflexivity.
Defined.

Lemma interview_then_delete_witness :
  current (the_session room_question) = Some (set_floor 12 battalova)
  ∧ rooms_known room_question
  ∧ default ∅ (employees_json room_question) !! lit "батталова" = None
  ∧ lit "батталова" ≠ lit "cancel"
  ∧ ∃ r w1 out,
      got_room (lit "12.43") room_question = Done r w1 out
      ∧ employees_json (cb_delete (lit "del:батталова") w1).1 = Some ∅.
Proof.
  assert (current (the_session room_question) = Some (set_floor 12 battalova))
    as Hc by (vm_compute; reflexivity).
  assert (rooms_known room_question) as Hr by (vm_compute; constructor).
  assert (default ∅ (employees_json room_question) !! lit "батталова" = None)
    as Hnew by (vm_compute; reflexivity).
  assert (lit "батталова" ≠ lit "cancel") as Hne by (vm_compute; discriminate).
  split_and!; [exact Hc|exact Hr|exact Hnew|exact Hne|].
  destruct (interview_then_delete room_question (set_floor 12 battalova) 12
              (lit "12.43") Hc eq_refl Hr Hnew Hne)
    as (r & w1 & out & Hroom & _ & Hfile & _).
  exists r, w1, out. split; [exact Hroom|exact Hfile].
Defined.

Lemma manual_flow_never_records_witness :
  (Some ASK_FLOOR, add_world)
  ∈ bot_runs (None, fresh_world) [message_update (command (lit "add"))]
  ∧ manual_add (user_data add_world) = true
  ∧ manual_name (user_data add_world) = None
  ∧ manual_floor (user_data add_world) = None.
Proof.
  assert ((Some ASK_FLOOR, add_world)
          ∈ bot_runs (None, fresh_world) [message_update (command (lit "add"))])
    as Hin by (vm_compute; left).
  split_and!; [exact Hin|reflexivity|..];
    apply (manual_flow_never_records _ _ _ Hin).
Defined.

Lemma bot_step_directory_witness :
  let c := (@None conv, directory_world) in
  let e := callback_query (lit "del:батталова") in
  let c' := (@None conv, (cb_delete (lit "del:батталова") directory_world).1) in
  c' ∈ bot_step c e
  ∧ (employees_json c'.2 = employees_json c.2
     ∨ (∃ text item f,
          e = message_update (text_message text) ∧ c.1 = Some ASK_ROOM
          ∧ current (the_session c.2) = Some item ∧ floor item = Some f
          ∧ employees_json c'.2
            = Some (<[surname item := directory_record item f (strip text)]>
                      (default ∅ (employees_json c.2))))
     ∨ (∃ k, e = callback_query (lit "del:" ++ k)
             ∧ is_Some (default ∅ (employees_json c.2) !! k)
             ∧ employees_json c'.2
               = Some (delete k (default ∅ (employees_json c.2))))).
Proof.
  intros c e c'.
  assert (c' ∈ bot_step c e) as Hin by (vm_compute; left).
  split; [exact Hin|].
  exact (bot_step_directory c c' e Hin).
Defined.

Lemma bot_runs_renderable_witness :
  let c := (None, fresh_world) in
  let es := [message_update
               (text_message (lit "батталова 0835" ++ [LF] ++ lit "погудин 2397"))] in
  (Some ASK_FLOOR, interview_world) ∈ bot_runs c es
  ∧ renderable fresh_world
  ∧ renderable interview_world.
Proof.
  intros c es.
  assert ((Some ASK_FLOOR, interview_world) ∈ bot_runs c es) as Hin
    by (vm_compute; left).
  assert (renderable fresh_world) as Hr by (split; constructor).
  split_and!; [exact Hin|exact Hr|].
  exact (proj1 (bot_runs_renderable es c _ Hin Hr)).
Defined.


Lemma handle_text_keeps_every_line_witness :
  let text := lit "батталова 0835" ++ [LF] ++ lit "погудин 2397" in
  parse_delivery (strip text) = Ok [battalova; pogudin]
  ∧ line_of <$> in_session (the_session (final (handle_text text directory_world)))
    ≡ₚ [(lit "батталова", lit "0835"); (lit "погудин", lit "2397")].
Proof.
  intros text.
  assert (parse_delivery (strip text) = Ok [battalova; pogudin]) as Hp
    by (vm_compute; reflexivity).
  split; [exact Hp|].
  exact (handle_text_keeps_every_line text [battalova; pogudin] directory_world
           Hp ltac:(discriminate)).
Defined.

Lemma interview_in_manifest_order_witness :
  let answers := [(lit "12", 12%Z, lit "12.43"); (lit "3", 3%Z, lit "3.1")] in
  current (the_session interview_world) = Some battalova
  ∧ rooms_known interview_world
  ∧ ∃ w',
      interviewed interview_world answers w'
      ∧ deliveries (the_session w') = [at_3_1; at_12_43]
      ∧ pending (the_session w') = [].
Proof.
  intros answers.
  assert (current (the_session interview_world) = Some battalova) as Hc
    by reflexivity.
  assert (rooms_known interview_world) as Hr by constructor.
  assert (Forall (λ a : interview_answer,
                    isdigit (strip a.1.1) = true ∧ int (strip a.1.1) = Ok a.1.2)
            answers) as Hall
    by (repeat constructor; vm_compute; reflexivity).
  split_and!; [exact Hc|exact Hr|].
  destruct (interview_in_manifest_order interview_world battalova answers
              Hc Hr eq_refl Hall) as (w' & Hrun & Hds & Hpend & _).
  exists w'. split_and!; [exact Hrun| |exact Hpend].
  rewrite Hds. vm_compute. reflexivity.
Defined.


Lemma cmd_list_groups_witness :
  let items := [(lit "батталова", directory_record battalova 12 (lit "12.43"));
                (lit "погудин", directory_record pogudin 3 (lit "3.1"))] in
  items ≠ []
  ∧ cmd_list items
    = msg_list [list_title;
                list_floor 3; list_person (lit "Погудин") (lit "3.1"); list_blank;
                list_floor 12; list_person (lit "Батталова") (lit "12.43");
                list_blank;
                list_total 2]
  ∧ ∃ groups,
      cmd_list items
      = msg_list (list_title :: (groups ≫= floor_lines)
                  ++ [list_total (length items)])
      ∧ StronglySorted (λ g h, (g.1 < h.1)%Z) groups.
Proof.
  intros items.
  assert (items ≠ []) as Hne by discriminate.
  split_and!; [exact Hne|vm_compute; reflexivity|].
  destruct (cmd_list_groups items Hne) as (groups & Hcmd & Hs & _).
  exists groups. split; [exact Hcmd|exact Hs].
Defined.

Lemma parse_delivery_accepts_witness :
  let c := 1073 in
  let mid := lit "атталов" in
  let z := 1072 in
  name_start c = true ∧ name_start z = true
  ∧ Forall (λ c, name_char c = true) mid
  ∧ Forall (λ c, isspace c = true) (lit " ")
  ∧ Forall (λ c, dash c = true) (lit "—")
  ∧ Forall (λ c, ascii_digit c = true) (lit "0835")
  ∧ (c :: mid ++ [z]) ++ lit " " ++ lit "—" ++ lit " " ++ lit "0835"
    = lit "батталова — 0835"
  ∧ parse_delivery (lit "батталова — 0835") = Ok [battalova].
Proof.
  intros c mid z.
  assert (name_start c = true) as Hc by reflexivity.
  assert (name_start z = true) as Hz by reflexivity.
  assert (Forall (λ c, name_char c = true) mid) as Hmid
    by (vm_compute; repeat constructor).
  assert (Forall (λ c, isspace c = true) (lit " ")) as Hws
    by (vm_compute; repeat constructor).
  assert (Forall (λ c, dash c = true) (lit "—")) as Hd
    by (vm_compute; repeat constructor).
  assert (Forall (λ c, ascii_digit c = true) (lit "0835")) as Hdig
    by (vm_compute; repeat constructor).
  assert ((c :: mid ++ [z]) ++ lit " " ++ lit "—" ++ lit " " ++ lit "0835"
          = lit "батталова — 0835") as Hline by (vm_compute; reflexivity).
  split_and!; [exact Hc|exact Hz|exact Hmid|exact Hws|exact Hd|exact Hdig
              |exact Hline|].
  destruct (parse_delivery_accepts c z mid (lit " ") (lit "—") (lit " ")
              (lit "0835") Hc Hmid Hz Hws Hd
              ltac:(vm_compute; lia) Hws ltac:(discriminate) Hdig
              ltac:(vm_compute; lia) ltac:(vm_compute; not_listed))
    as (first & rest & Hsplit & Hparse).
  rewrite <-Hline, Hparse.
  vm_compute in Hsplit. injection Hsplit as <- _. vm_compute. reflexivity.
Defined.

End ConcreteMore.

Section Superscripts.
#[local] Existing Instance superscript_digits.

Lemma got_floor_digit_not_int_witness :
  isdigit (strip (lit "²")) = true
  ∧ int (strip (lit "²")) = Raise ValueError
  ∧ got_floor (lit "²") fresh_world
    = Raised ValueError
        (set_user_data (set_session empty_session) fresh_world) [].
Proof.
  assert (isdigit (strip (lit "²")) = true) as Hd by (vm_compute; reflexivity).
  assert (int (strip (lit "²")) = Raise ValueError) as Hi
    by (vm_compute; reflexivity).
  split_and!; [exact Hd|exact Hi|].
  exact (proj2 (got_floor_digit_not_int (lit "²") ValueError fresh_world Hd Hi)).
Defined.

End Superscripts.
